(** * Input value tracking (react-dom-bindings/src/client/inputValueTracking.js)

    A shallow embedding of the value tracker that React installs on form
    controls, and the properties of it that the specification states.

    The JavaScript object model is embedded as far as the module uses it:
    - a node is an object with own properties and a class prototype
      ([node.constructor.prototype]); both are finite maps from property
      names to descriptors;
    - the accessor pair defined by [trackValueOnNode] and the tracker object
      it returns are closures over one environment ([currentValue], [get],
      [set], [valueField]); environments live in a store and are referred to
      by index, so that two references to one tracker are the same index;
    - an operation is a function from the world to an outcome: a normal
      completion with a result, or a thrown exception, both with the world
      they leave behind.

    Values are the primitive values a form field can hold. Objects (whose
    string coercion runs user code) and numbers are outside the model; a
    symbol stands for every value whose string coercion throws. The module
    is an ECMAScript module, hence strict code: a write that cannot be done
    and a delete that cannot be done throw a TypeError. *)

From stdpp Require Import gmap strings list fin_maps.

(** ** Values *)

Inductive value :=
| VUndefined
| VNull
| VBool (b : bool)
| VString (s : string)
| VSymbol (id : nat).

#[global] Instance value_eq_dec : EqDecision value.
Proof. solve_decision. Defined.

(** [a !== b] on primitive values. *)
Definition strict_neq (a b : value) : bool := negb (bool_decide (a = b)).

(** [ToString] of ECMAScript; a symbol cannot be converted (TypeError). *)
Definition ToString (v : value) : option string :=
  match v with
  | VUndefined => Some "undefined"
  | VNull => Some "null"
  | VBool true => Some "true"
  | VBool false => Some "false"
  | VString s => Some s
  | VSymbol _ => None
  end.

(** [ToBoolean] of ECMAScript: the truthiness used by [!x], [x ? a : b]. *)
Definition ToBoolean (v : value) : bool :=
  match v with
  | VUndefined | VNull => false
  | VBool b => b
  | VString s => negb (String.eqb s "")
  | VSymbol _ => true
  end.

Definition is_string (v : value) : bool :=
  match v with VString _ => true | _ => false end.

Definition is_boolean (v : value) : bool :=
  match v with VBool _ => true | _ => false end.

(** [String.prototype.toLowerCase], on the ASCII letters. The module only
    compares the result with ['input'], and no character outside A-Z lowers
    to one of the letters of that word. *)
Definition lower_ascii (c : Ascii.ascii) : Ascii.ascii :=
  let n := Ascii.nat_of_ascii c in
  if (65 <=? n)%nat && (n <=? 90)%nat then Ascii.ascii_of_nat (n + 32) else c.

Fixpoint toLowerCase (s : string) : string :=
  match s with
  | EmptyString => EmptyString
  | String c r => String (lower_ascii c) (toLowerCase r)
  end.

(** ** Host accessors

    A class-level getter is host code that reads the control's internal
    state; it is modelled by the value it yields in a given state. A
    class-level setter is host code that may read and write the internal
    state and, being called from the intercepting setter, may read the
    node's tracker while it runs. *)

Definition getter := gmap string value → value.

Inductive prog :=
| Done
| ReadSlot (name : string) (k : value → prog)
| WriteSlot (name : string) (v : value) (k : prog)
| ReadTracker (k : value → prog).

Definition setter := value → prog.

(** ** Property descriptors *)

Inductive descriptor :=
| AccessorDescriptor (get : option getter) (set : option setter)
    (enumerable configurable : bool)
| DataDescriptor (val : value) (writable enumerable configurable : bool).

Definition descriptor_get (d : descriptor) : option getter :=
  match d with AccessorDescriptor g _ _ _ => g | DataDescriptor _ _ _ _ => None end.

Definition descriptor_set (d : descriptor) : option setter :=
  match d with AccessorDescriptor _ s _ _ => s | DataDescriptor _ _ _ _ => None end.

Definition descriptor_enumerable (d : descriptor) : bool :=
  match d with
  | AccessorDescriptor _ _ e _ => e
  | DataDescriptor _ _ e _ => e
  end.

Definition descriptor_configurable (d : descriptor) : bool :=
  match d with
  | AccessorDescriptor _ _ _ c => c
  | DataDescriptor _ _ _ c => c
  end.

Definition with_enumerable (b : bool) (d : descriptor) : descriptor :=
  match d with
  | AccessorDescriptor g s _ c => AccessorDescriptor g s b c
  | DataDescriptor v w _ c => DataDescriptor v w b c
  end.

(** An own property of the node is either the accessor pair defined by
    [trackValueOnNode] (always configurable; its functions close over the
    environment [env]) or a property defined by someone else. *)
Inductive own_property :=
| Installed (env : nat) (enumerable : bool)
| Foreign (d : descriptor).

(** The closure environment of one call of [trackValueOnNode] that did not
    bail: the constants [valueField], [get], [set] and the variable
    [currentValue]. *)
Record environment := {
  valueField : string;
  captured_get : option getter;
  captured_set : option setter;
  currentValue : value
}.

(** The content of [node._valueTracker]. *)
Inductive tracker_ref :=
| TUndefined
| TNull
| TObject (env : nat).

Definition tracker_truthy (t : tracker_ref) : bool :=
  match t with TObject _ => true | _ => false end.

(** ** The world: one node, its class, the closures, the console *)

Record World := {
  nodeName : string;
  type : string;
  slots : gmap string value;
  prototype : gmap string descriptor;
  own : gmap string own_property;
  _valueTracker : tracker_ref;
  environments : list environment;
  console : list value
}.

Definition with_slots (s : gmap string value) (w : World) : World :=
  {| nodeName := nodeName w; type := type w; slots := s;
     prototype := prototype w; own := own w;
     _valueTracker := _valueTracker w; environments := environments w;
     console := console w |}.

Definition with_prototype (p : gmap string descriptor) (w : World) : World :=
  {| nodeName := nodeName w; type := type w; slots := slots w;
     prototype := p; own := own w;
     _valueTracker := _valueTracker w; environments := environments w;
     console := console w |}.

Definition with_own (o : gmap string own_property) (w : World) : World :=
  {| nodeName := nodeName w; type := type w; slots := slots w;
     prototype := prototype w; own := o;
     _valueTracker := _valueTracker w; environments := environments w;
     console := console w |}.

Definition with_tracker (t : tracker_ref) (w : World) : World :=
  {| nodeName := nodeName w; type := type w; slots := slots w;
     prototype := prototype w; own := own w;
     _valueTracker := t; environments := environments w;
     console := console w |}.

Definition with_environments (l : list environment) (w : World) : World :=
  {| nodeName := nodeName w; type := type w; slots := slots w;
     prototype := prototype w; own := own w;
     _valueTracker := _valueTracker w; environments := l;
     console := console w |}.

Definition with_console (c : list value) (w : World) : World :=
  {| nodeName := nodeName w; type := type w; slots := slots w;
     prototype := prototype w; own := own w;
     _valueTracker := _valueTracker w; environments := environments w;
     console := c |}.

Definition with_type (t : string) (w : World) : World :=
  {| nodeName := nodeName w; type := t; slots := slots w;
     prototype := prototype w; own := own w;
     _valueTracker := _valueTracker w; environments := environments w;
     console := console w |}.

Definition with_currentValue (v : value) (env : environment) : environment :=
  {| valueField := valueField env; captured_get := captured_get env;
     captured_set := captured_set env; currentValue := v |}.

(** A reference to the node, as the exported functions receive it:
    [Absent] is [null] or [undefined]. *)
Inductive reference := Absent | Present.

(** ** Outcomes *)

Inductive exn := TypeError.

Inductive outcome (A : Type) :=
| Normal (a : A) (w : World)
| Throw (e : exn) (w : World).
Arguments Normal {A} a w.
Arguments Throw {A} e w.

Definition M (A : Type) : Type := World → outcome A.

Definition ret {A} (a : A) : M A := λ w, Normal a w.
Definition throw {A} (e : exn) : M A := λ w, Throw e w.
Definition bind {A B} (c : M A) (k : A → M B) : M B :=
  λ w, match c w with
       | Normal a w' => k a w'
       | Throw e w' => Throw e w'
       end.

Notation "'let*' x ':=' c 'in' k" := (bind c (λ x, k))
  (at level 10, x pattern, c at level 100, k at level 200).

Definition final {A} (o : outcome A) : World :=
  match o with Normal _ w => w | Throw _ w => w end.

(** ['' + v]: string concatenation with the empty string. *)
Definition coerce (v : value) : M string :=
  match ToString v with
  | Some s => ret s
  | None => throw TypeError
  end.

(** Running the body of a host setter. [ReadTracker] is the nested read
    [this._valueTracker.getValue()] (undefined when no tracker is attached). *)
Definition tracked_value (w : World) : value :=
  match _valueTracker w with
  | TObject e =>
      match environments w !! e with
      | Some env => currentValue env
      | None => VUndefined
      end
  | _ => VUndefined
  end.

Definition slot (w : World) (name : string) : value :=
  default VUndefined (slots w !! name).

Fixpoint run (p : prog) (w : World) : World :=
  match p with
  | Done => w
  | ReadSlot name k => run (k (slot w name)) w
  | WriteSlot name v k => run k (with_slots (<[name := v]> (slots w)) w)
  | ReadTracker k => run (k (tracked_value w)) w
  end.

(** The values that the nested tracker reads of a setter body observe, in
    order. *)
Fixpoint tracker_reads (p : prog) (w : World) : list value :=
  match p with
  | Done => []
  | ReadSlot name k => tracker_reads (k (slot w name)) w
  | WriteSlot name v k => tracker_reads k (with_slots (<[name := v]> (slots w)) w)
  | ReadTracker k => tracked_value w :: tracker_reads (k (tracked_value w)) w
  end.

(** [f.call(this)] and [f.call(this, value)] for an accessor function that
    may be [undefined]: calling what is not a function is a TypeError. *)
Definition call_getter (g : option getter) : M value :=
  match g with
  | Some g => λ w, Normal (g (slots w)) w
  | None => throw TypeError
  end.

Definition call_setter (s : option setter) (v : value) : M unit :=
  match s with
  | Some s => λ w, Normal tt (run (s v) w)
  | None => throw TypeError
  end.

(** ** Example nodes *)

(** A getter and a setter that read and write an internal slot as it is. *)
Definition slot_getter (name : string) : getter :=
  λ s, default VUndefined (s !! name).

Definition slot_setter (name : string) : setter :=
  λ v, WriteSlot name v Done.

(** A setter that reads the node's tracker while it runs and keeps what it
    saw in the slot [seen]. *)
Definition observing_setter (name : string) : setter :=
  λ v, ReadTracker (λ t, WriteSlot "seen" t (WriteSlot name v Done)).

Definition input_class : gmap string descriptor :=
  <["value" := AccessorDescriptor (Some (slot_getter "value"))
                 (Some (slot_setter "value")) true true]>
  (<["checked" := AccessorDescriptor (Some (slot_getter "checked"))
                    (Some (slot_setter "checked")) true true]> ∅).

Definition input (ty : string) (val : string) (chk : bool) : World :=
  {| nodeName := "INPUT"; type := ty;
     slots := <["value" := VString val]> (<["checked" := VBool chk]> ∅);
     prototype := input_class; own := ∅; _valueTracker := TUndefined;
     environments := []; console := [] |}.

(** A text input on which a test has defined its own [value] property. *)
Definition spied_input : World :=
  with_own (<["value" := Foreign (DataDescriptor (VString "spy") true true true)]> ∅)
    (input "text" "a" false).

(** ** Property access on the node *)

Section InputValueTracking.

(** The build flag [__DEV__]. *)
Variable __DEV__ : bool.

(** Modelled from the spec: [checkFormFieldValueStringCoercion] of
    shared/CheckStringCoercion, which is imported and not part of the
    sources. It raises a diagnostic, and does not fail the operation, if the
    value is not safely string-coercible. The diagnostic is recorded on the
    console. *)
Definition checkFormFieldValueStringCoercion (v : value) : M unit :=
  λ w, match ToString v with
       | Some _ => Normal tt w
       | None => Normal tt (with_console (console w ++ [v]) w)
       end.

Definition isCheckable (elem : World) : bool :=
  let type := type elem in
  let nodeName := nodeName elem in
  ToBoolean (VString nodeName) &&
  String.eqb (toLowerCase nodeName) "input" &&
  (String.eqb type "checkbox" || String.eqb type "radio").

Definition getTracker : M tracker_ref :=
  λ node, Normal (_valueTracker node) node.

Definition detachTracker : M unit :=
  λ node, Normal tt (with_tracker TNull node).

(** The getter of the accessor defined by [trackValueOnNode], closing over
    environment [e]. *)
Definition installed_get (e : nat) : M value :=
  λ w, match environments w !! e with
       | None => Throw TypeError w
       | Some env =>
           let currentDescriptor := prototype w !! valueField env in
           match currentDescriptor with
           | None => call_getter (captured_get env) w
           | Some d =>
               match descriptor_get d with
               | None => call_getter (captured_get env) w
               | Some g => call_getter (Some g) w
               end
           end
       end.

(** The assignment [currentValue = s] in environment [e]. *)
Definition assign_currentValue (e : nat) (v : value) : M unit :=
  λ w, Normal tt
         (with_environments
            (alter (with_currentValue v) e (environments w)) w).

(** The setter of the accessor defined by [trackValueOnNode]. *)
Definition installed_set (e : nat) (v : value) : M unit :=
  λ w, match environments w !! e with
       | None => Throw TypeError w
       | Some env =>
           (let* _ := (if __DEV__ then checkFormFieldValueStringCoercion v
                       else ret tt) in
            let* s := coerce v in
            let* _ := assign_currentValue e (VString s) in
            λ w', let currentDescriptor := prototype w' !! valueField env in
                  match currentDescriptor with
                  | None => call_setter (captured_set env) v w'
                  | Some d =>
                      match descriptor_set d with
                      | None => call_setter (captured_set env) v w'
                      | Some s => call_setter (Some s) v w'
                      end
                  end) w
       end.

Definition read_descriptor (d : descriptor) : M value :=
  match d with
  | AccessorDescriptor (Some g) _ _ _ => call_getter (Some g)
  | AccessorDescriptor None _ _ _ => ret VUndefined
  | DataDescriptor v _ _ _ => ret v
  end.

(** [node[f]]: the own property if there is one, else the class's. The
    node's prototype is its class prototype, and nothing further up the
    prototype chain defines the two fields. The property [_valueTracker] is
    not in these maps: the world holds it in a field of its own, which
    [getTracker] reads and [track] and [detachTracker] write; [f] stands for
    the name of any other property. *)
Definition getField (f : string) : M value :=
  λ w, match own w !! f with
       | Some (Installed e _) => installed_get e w
       | Some (Foreign d) => read_descriptor d w
       | None =>
           match prototype w !! f with
           | Some d => read_descriptor d w
           | None => Normal VUndefined w
           end
       end.

Definition define_own_data (f : string) (v : value) : M unit :=
  λ w, Normal tt
         (with_own (<[f := Foreign (DataDescriptor v true true true)]> (own w)) w).

(** [node[f] = v] in strict code, for a property [f] other than
    [_valueTracker]. *)
Definition setField (f : string) (v : value) : M unit :=
  λ w, match own w !! f with
       | Some (Installed e _) => installed_set e v w
       | Some (Foreign (AccessorDescriptor _ s _ _)) => call_setter s v w
       | Some (Foreign (DataDescriptor _ true en c)) =>
           Normal tt
             (with_own (<[f := Foreign (DataDescriptor v true en c)]> (own w)) w)
       | Some (Foreign (DataDescriptor _ false _ _)) => Throw TypeError w
       | None =>
           match prototype w !! f with
           | Some (AccessorDescriptor _ s _ _) => call_setter s v w
           | Some (DataDescriptor _ false _ _) => Throw TypeError w
           | Some (DataDescriptor _ true _ _) | None => define_own_data f v w
           end
       end.

(** [node.hasOwnProperty(f)]. *)
Definition hasOwnProperty (f : string) (w : World) : bool :=
  bool_decide (is_Some (own w !! f)).

(** [Object.defineProperty(node, f, {configurable: true, get, set})] with the
    two closures over environment [e], on an extensible node. A property
    that did not exist is created with [enumerable: false]. *)
Definition defineProperty_accessor (f : string) (e : nat) : M unit :=
  λ w, match own w !! f with
       | None => Normal tt (with_own (<[f := Installed e false]> (own w)) w)
       | Some (Installed _ en) =>
           Normal tt (with_own (<[f := Installed e en]> (own w)) w)
       | Some (Foreign d) =>
           if descriptor_configurable d
           then Normal tt
                  (with_own (<[f := Installed e (descriptor_enumerable d)]> (own w)) w)
           else Throw TypeError w
       end.

(** [Object.defineProperty(node, f, {enumerable: b})]. *)
Definition defineProperty_enumerable (f : string) (b : bool) : M unit :=
  λ w, match own w !! f with
       | None =>
           Normal tt
             (with_own (<[f := Foreign (DataDescriptor VUndefined false b false)]> (own w)) w)
       | Some (Installed e _) =>
           Normal tt (with_own (<[f := Installed e b]> (own w)) w)
       | Some (Foreign d) =>
           if descriptor_configurable d || bool_decide (descriptor_enumerable d = b)
           then Normal tt (with_own (<[f := Foreign (with_enumerable b d)]> (own w)) w)
           else Throw TypeError w
       end.

(** [delete node[f]] in strict code. *)
Definition deleteField (f : string) : M unit :=
  λ w, match own w !! f with
       | Some (Foreign d) =>
           if descriptor_configurable d
           then Normal tt (with_own (delete f (own w)) w)
           else Throw TypeError w
       | _ => Normal tt (with_own (delete f (own w)) w)
       end.

(** ** The module *)

Definition getValueFromNode (node : reference) : M value :=
  match node with
  | Absent => ret (VString "")
  | Present =>
      λ w, if isCheckable w
           then (let* checked := getField "checked" in
                 ret (VString (if ToBoolean checked then "true" else "false"))) w
           else getField "value" w
  end.

(** Allocation of the closure environment of one call. *)
Definition new_environment (env : environment) : M nat :=
  λ w, Normal (length (environments w))
         (with_environments (environments w ++ [env]) w).

(** [trackValueOnNode(node)]; the result is the tracker object, given by the
    environment its three methods close over, or nothing. *)
Definition trackValueOnNode : M (option nat) :=
  λ node,
    let valueField := if isCheckable node then "checked" else "value" in
    let descriptor := prototype node !! valueField in
    (let* _ := (if __DEV__
                then let* v := getField valueField in
                     checkFormFieldValueStringCoercion v
                else ret tt) in
     let* v := getField valueField in
     let* currentValue := coerce v in
     λ node',
       match descriptor with
       | None => Normal None node'
       | Some d =>
           if hasOwnProperty valueField node'
              || negb (bool_decide (is_Some (descriptor_get d)))
              || negb (bool_decide (is_Some (descriptor_set d)))
           then Normal None node'
           else
             (let* e := new_environment
                          {| valueField := valueField;
                             captured_get := descriptor_get d;
                             captured_set := descriptor_set d;
                             currentValue := VString currentValue |} in
              let* _ := defineProperty_accessor valueField e in
              let* _ := defineProperty_enumerable valueField
                          (descriptor_enumerable d) in
              ret (Some e)) node'
       end) node.

(** The methods of the tracker object that closes over environment [e]. *)
Definition tracker_getValue (e : nat) : M value :=
  λ w, match environments w !! e with
       | Some env => Normal (currentValue env) w
       | None => Throw TypeError w
       end.

Definition tracker_setValue (e : nat) (v : value) : M unit :=
  λ w, match environments w !! e with
       | None => Throw TypeError w
       | Some _ =>
           (let* _ := (if __DEV__ then checkFormFieldValueStringCoercion v
                       else ret tt) in
            let* s := coerce v in
            assign_currentValue e (VString s)) w
       end.

Definition tracker_stopTracking (e : nat) : M unit :=
  λ w, match environments w !! e with
       | None => Throw TypeError w
       | Some env =>
           (let* _ := detachTracker in
            deleteField (valueField env)) w
       end.

Definition track (node : reference) : M unit :=
  match node with
  | Absent => throw TypeError
  | Present =>
      let* t := getTracker in
      if tracker_truthy t then ret tt
      else
        let* r := trackValueOnNode in
        λ w, Normal tt
               (with_tracker
                  (match r with Some e => TObject e | None => TUndefined end) w)
  end.

Definition updateValueIfChanged (node : reference) : M bool :=
  match node with
  | Absent => ret false
  | Present =>
      let* tracker := getTracker in
      match tracker with
      | TObject e =>
          let* lastValue := tracker_getValue e in
          let* nextValue := getValueFromNode node in
          if strict_neq nextValue lastValue
          then let* _ := tracker_setValue e nextValue in ret true
          else ret false
      | _ => ret true
      end
  end.

Definition stopTracking (node : reference) : M unit :=
  match node with
  | Absent => throw TypeError
  | Present =>
      let* tracker := getTracker in
      match tracker with
      | TObject e => tracker_stopTracking e
      | _ => ret tt
      end
  end.

(** ** What can happen to a node

    The exported functions are called on the node, scripts read and write
    its properties, the host changes the control's internal state (user
    input), a tracker that somebody holds is used directly, the class-level
    descriptors are redefined, the control changes its type. *)

Inductive event :=
| CallTrack
| CallUpdateValueIfChanged
| CallStopTracking
| ReadField (f : string)
| WriteField (f : string) (v : value)
| HostChange (s : gmap string value)
| UseSetValue (e : nat) (v : value)
| UseStopTracking (e : nat)
| RedefineClass (p : gmap string descriptor)
| ChangeType (t : string).

Definition perform (ev : event) (w : World) : World :=
  match ev with
  | CallTrack => final (track Present w)
  | CallUpdateValueIfChanged => final (updateValueIfChanged Present w)
  | CallStopTracking => final (stopTracking Present w)
  | ReadField f => final (getField f w)
  | WriteField f v => final (setField f v w)
  | HostChange s => with_slots s w
  | UseSetValue e v => final (tracker_setValue e v w)
  | UseStopTracking e => final (tracker_stopTracking e w)
  | RedefineClass p => with_prototype p w
  | ChangeType t => with_type t w
  end.

(** A node that this module has not touched yet: no closure exists, no
    tracker is attached, no own property is one of the module's. *)
Definition untouched (w : World) : Prop :=
  environments w = [] ∧ _valueTracker w = TUndefined ∧
  ∀ f e b, own w !! f ≠ Some (Installed e b).

Inductive reachable : World → Prop :=
| reachable_untouched w : untouched w → reachable w
| reachable_perform w ev : reachable w → reachable (perform ev w).

(** The invariant of the closure store. *)
Definition env_ok (env : environment) : Prop :=
  is_Some (captured_get env) ∧ is_Some (captured_set env) ∧
  is_string (currentValue env) = true.

Record wf (w : World) : Prop := {
  wf_envs : ∀ e env, environments w !! e = Some env → env_ok env;
  wf_own : ∀ f e b, own w !! f = Some (Installed e b) →
           ∃ env, environments w !! e = Some env ∧ valueField env = f;
  wf_tracker : ∀ e, _valueTracker w = TObject e →
               ∃ env b, environments w !! e = Some env ∧
                        own w !! valueField env = Some (Installed e b)
}.

(** The node's fields have the types the host gives them: reading the field
    that the tracker follows yields a boolean for [checked] and a string for
    [value]. *)
Definition host_typed (w : World) : Prop :=
  ∃ v, getField (if isCheckable w then "checked" else "value") w = Normal v w ∧
       (if isCheckable w then is_boolean v else is_string v) = true.

(** The world that [trackValueOnNode] leaves when it does not bail: a new
    environment, seeded with [s], and the accessor defined twice. *)
Definition installed_world (f : string) (d : descriptor) (s : string)
    (w : World) : World :=
  let e := length (environments w) in
  with_own
    (<[f := Installed e (descriptor_enumerable d)]>
       (<[f := Installed e false]> (own w)))
    (with_environments
       (environments w ++
        [{| valueField := f; captured_get := descriptor_get d;
            captured_set := descriptor_set d; currentValue := VString s |}])
       w).

(** The specification's statement that a direct write is reported exactly
    once, for a write made through the node ([node[f] = v]): on a node with
    a tracker attached, after one write to the tracked field that changes
    the string read from the node, the first [updateValueIfChanged] returns
    true and a second one returns false. *)
Definition write_reported_once : Prop :=
  ∀ w f e b v w1 s0 s1,
    reachable w → _valueTracker w = TObject e →
    own w !! f = Some (Installed e b) →
    getValueFromNode Present w = Normal (VString s0) w →
    setField f v w = Normal tt w1 →
    getValueFromNode Present w1 = Normal (VString s1) w1 → s1 ≠ s0 →
    ∃ w2, updateValueIfChanged Present w1 = Normal true w2 ∧
          updateValueIfChanged Present w2 = Normal false w2.

(** The world in which environment [e] has recorded the string [s]. *)
Definition recorded (e : nat) (s : string) (w : World) : World :=
  with_environments (alter (with_currentValue (VString s)) e (environments w)) w.

(** The getter that a read through the installed accessor delegates to, and
    the setter that a write delegates to. *)
Definition live_getter (w : World) (f : string) : option getter :=
  match prototype w !! f with
  | Some d => descriptor_get d
  | None => None
  end.

Definition live_setter (w : World) (f : string) : option setter :=
  match prototype w !! f with
  | Some d => descriptor_set d
  | None => None
  end.

(** The bail conditions of [trackValueOnNode] for the field [f]. *)
Definition bails (w : World) (f : string) : Prop :=
  is_Some (own w !! f) ∨ prototype w !! f = None ∨
  live_getter w f = None ∨ live_setter w f = None.

(** Two worlds that differ at most in what is on the console. *)
Definition same_node (w w' : World) : Prop :=
  nodeName w' = nodeName w ∧ type w' = type w ∧ slots w' = slots w ∧
  prototype w' = prototype w ∧ own w' = own w ∧
  _valueTracker w' = _valueTracker w ∧ environments w' = environments w.

(** Every closure of [w] is still there in [w'], with the field, the getter
    and the setter it captured. *)
Definition keeps_closures (w w' : World) : Prop :=
  ∀ e env, environments w !! e = Some env →
           ∃ env', environments w' !! e = Some env' ∧
                   valueField env' = valueField env ∧
                   captured_get env' = captured_get env ∧
                   captured_set env' = captured_set env.

(** ** Basic facts *)

Lemma with_slots_id w : with_slots (slots w) w = w.
Proof. by destruct w. Qed.

Lemma run_frame p : ∀ w, run p w = with_slots (slots (run p w)) w.
Proof.
  induction p as [|name k IH|name v k IH|k IH]; intros w; simpl.
  - by rewrite with_slots_id.
  - apply IH.
  - by rewrite (IH (with_slots _ w)) at 1.
  - apply IH.
Qed.

Lemma tracker_reads_constant p :
  ∀ w, Forall (λ x, x = tracked_value w) (tracker_reads p w).
Proof.
  induction p as [|name k IH|name v k IH|k IH]; intros w; simpl.
  - constructor.
  - apply IH.
  - apply (IH (with_slots _ w)).
  - constructor; [done | apply IH].
Qed.

Lemma final_bind {A B} (c : M A) (k : A → M B) w :
  final (bind c k w) =
  match c w with Normal a w' => final (k a w') | Throw _ w' => w' end.
Proof. unfold bind. by destruct (c w). Qed.

Lemma getField_cases f w :
  (∃ v, getField f w = Normal v w) ∨ getField f w = Throw TypeError w.
Proof.
  unfold getField, installed_get, read_descriptor, call_getter, ret, throw.
  repeat case_match; eauto.
Qed.

Lemma getField_final f w : final (getField f w) = w.
Proof. by destruct (getField_cases f w) as [[v ->] | ->]. Qed.

Lemma getField_total f w : wf w → ∃ v, getField f w = Normal v w.
Proof.
  intros Hwf. unfold getField.
  destruct (own w !! f) as [[e b|d]|] eqn:Hown.
  - destruct (wf_own w Hwf f e b Hown) as (env & He & _).
    destruct (wf_envs w Hwf e env He) as ([g Hg] & _ & _).
    unfold installed_get. rewrite He, Hg.
    destruct (prototype w !! valueField env) as [d|]; simpl; eauto.
    destruct (descriptor_get d); simpl; eauto.
  - unfold read_descriptor, call_getter, ret. repeat case_match; eauto.
  - unfold read_descriptor, call_getter, ret. repeat case_match; eauto.
Qed.

(** ** The invariant is kept by everything that can happen *)

Lemma alter_currentValue_fwd v e (l : list environment) e' env0 :
  l !! e' = Some env0 →
  ∃ env', alter (with_currentValue v) e l !! e' = Some env' ∧
          valueField env' = valueField env0 ∧
          captured_get env' = captured_get env0 ∧
          captured_set env' = captured_set env0 ∧
          (currentValue env' = currentValue env0 ∨ currentValue env' = v).
Proof.
  intros H. rewrite list_lookup_alter. case_decide as He.
  - subst e'. rewrite H. simpl. eexists; repeat split; eauto.
  - rewrite H. eexists; repeat split; eauto.
Qed.

Lemma alter_currentValue_bwd v e (l : list environment) e' env' :
  alter (with_currentValue v) e l !! e' = Some env' →
  ∃ env0, l !! e' = Some env0 ∧
          valueField env' = valueField env0 ∧
          captured_get env' = captured_get env0 ∧
          captured_set env' = captured_set env0 ∧
          (currentValue env' = currentValue env0 ∨ currentValue env' = v).
Proof.
  rewrite list_lookup_alter. case_decide as He.
  - subst e'. destruct (l !! e) as [env0|]; simpl; [|done].
    intros [= <-]. eexists; repeat split; eauto.
  - intros H. eexists; repeat split; eauto.
Qed.

Lemma wf_with_slots s w : wf w → wf (with_slots s w).
Proof. intros [H1 H2 H3]. by constructor. Qed.

Lemma wf_with_console c w : wf w → wf (with_console c w).
Proof. intros [H1 H2 H3]. by constructor. Qed.

Lemma wf_with_prototype p w : wf w → wf (with_prototype p w).
Proof. intros [H1 H2 H3]. by constructor. Qed.

Lemma wf_with_type t w : wf w → wf (with_type t w).
Proof. intros [H1 H2 H3]. by constructor. Qed.

Lemma wf_run p w : wf w → wf (run p w).
Proof. intros H. rewrite run_frame. by apply wf_with_slots. Qed.

Lemma wf_recorded e s w : wf w → wf (recorded e s w).
Proof.
  intros [H1 H2 H3]. constructor; simpl.
  - intros e' env' H.
    destruct (alter_currentValue_bwd _ _ _ _ _ H) as (env0 & H0 & _ & Hg & Hs & Hc).
    destruct (H1 _ _ H0) as (? & ? & ?). unfold env_ok. rewrite Hg, Hs.
    split_and!; [done..|]. by destruct Hc as [-> | ->].
  - intros f e' b H. destruct (H2 _ _ _ H) as (env0 & H0 & <-).
    destruct (alter_currentValue_fwd (VString s) e _ _ _ H0) as (env' & ? & ? & _).
    eauto.
  - intros e' H. destruct (H3 _ H) as (env0 & b & H0 & Ho).
    destruct (alter_currentValue_fwd (VString s) e _ _ _ H0) as (env' & ? & Hf & _).
    exists env', b. split; [done | by rewrite Hf].
Qed.

Lemma wf_detach_delete f w :
  wf w → wf (with_own (delete f (own w)) (with_tracker TNull w)).
Proof.
  intros [H1 H2 H3]. constructor; simpl; [done| |done].
  intros f' e b [_ H]%lookup_delete_Some. eauto.
Qed.

Lemma wf_detach w : wf w → wf (with_tracker TNull w).
Proof. intros [H1 H2 H3]. by constructor. Qed.

Lemma wf_foreign f d w :
  wf w → (∀ e b, own w !! f ≠ Some (Installed e b)) →
  wf (with_own (<[f := Foreign d]> (own w)) w).
Proof.
  intros [H1 H2 H3] Hf. constructor; simpl; [done| |].
  - intros f' e b [[_ ?]|[_ H]]%lookup_insert_Some; [done | eauto].
  - intros e H. destruct (H3 _ H) as (env & b & He & Ho).
    exists env, b. split; [done|].
    rewrite lookup_insert_ne; [done|]. intros Heq. rewrite <- Heq in Ho.
    by apply (Hf e b).
Qed.

Lemma same_node_refl w : same_node w w.
Proof. by repeat split. Qed.

Lemma dev_check_spec v w :
  ∃ w', (if __DEV__ then checkFormFieldValueStringCoercion v else ret tt) w
        = Normal tt w' ∧ same_node w w' ∧ (wf w → wf w') ∧
        (is_Some (ToString v) → w' = w).
Proof.
  destruct __DEV__; unfold checkFormFieldValueStringCoercion, ret.
  - destruct (ToString v).
    + exists w. split_and!; auto using same_node_refl.
    + eexists. split_and!; [done | by repeat split | apply wf_with_console |].
      by intros [? ?].
  - exists w. split_and!; auto using same_node_refl.
Qed.

Lemma wf_call_setter s v w : wf w → wf (final (call_setter s v w)).
Proof.
  intros H. destruct s; simpl; [by apply wf_run | done].
Qed.

Lemma wf_installed_set e v w : wf w → wf (final (installed_set e v w)).
Proof.
  intros H. unfold installed_set.
  destruct (environments w !! e) as [env|]; [|done].
  rewrite final_bind.
  destruct (dev_check_spec v w) as (w1 & -> & _ & H1 & _).
  specialize (H1 H). rewrite final_bind. unfold coerce.
  destruct (ToString v) as [s|]; simpl; [|done].
  pose proof (wf_recorded e s w1 H1) as H2. unfold recorded in H2.
  rewrite final_bind. unfold assign_currentValue. cbv beta iota.
  repeat case_match; try by apply wf_call_setter.
  by apply wf_run.
Qed.

Lemma wf_setField f v w : wf w → wf (final (setField f v w)).
Proof.
  intros H. unfold setField, define_own_data.
  destruct (own w !! f) as [[e b|d]|] eqn:Hown.
  - by apply wf_installed_set.
  - destruct d as [g s en c|x [] en c]; simpl; try done.
    + by apply wf_call_setter.
    + apply wf_foreign; [done|]. intros e b. by rewrite Hown.
  - destruct (prototype w !! f) as [[g s en c|x [] en c]|]; simpl; try done.
    + by apply wf_call_setter.
    + apply wf_foreign; [done|]. intros e b. by rewrite Hown.
    + apply wf_foreign; [done|]. intros e b. by rewrite Hown.
Qed.

Lemma tracker_setValue_spec e v w env :
  environments w !! e = Some env →
  ∃ w1, same_node w w1 ∧ (wf w → wf w1) ∧
        (is_Some (ToString v) → w1 = w) ∧
        tracker_setValue e v w =
        match ToString v with
        | Some s => Normal tt (recorded e s w1)
        | None => Throw TypeError w1
        end.
Proof.
  intros He. unfold tracker_setValue. rewrite He. unfold bind.
  destruct (dev_check_spec v w) as (w1 & -> & Hs & Hwf & Hid).
  exists w1. split_and!; [done..|].
  unfold coerce. by destruct (ToString v).
Qed.

Lemma wf_tracker_setValue e v w : wf w → wf (final (tracker_setValue e v w)).
Proof.
  intros H. destruct (environments w !! e) as [env|] eqn:He.
  - destruct (tracker_setValue_spec e v w env He) as (w1 & _ & Hwf & _ & ->).
    destruct (ToString v); simpl; [apply wf_recorded|]; auto.
  - unfold tracker_setValue. by rewrite He.
Qed.

Lemma wf_tracker_stopTracking e w :
  wf w → wf (final (tracker_stopTracking e w)).
Proof.
  intros H. unfold tracker_stopTracking.
  destruct (environments w !! e) as [env|]; [|done].
  unfold bind, detachTracker, deleteField. simpl.
  repeat case_match; simpl; first [by apply wf_detach_delete | by apply wf_detach].
Qed.

Lemma getValueFromNode_cases w :
  (∃ v, getValueFromNode Present w = Normal v w) ∨
  getValueFromNode Present w = Throw TypeError w.
Proof.
  unfold getValueFromNode. destruct (isCheckable w).
  - unfold bind, ret.
    destruct (getField_cases "checked" w) as [[v ->] | ->]; eauto.
  - apply getField_cases.
Qed.

Lemma getValueFromNode_total w :
  wf w → ∃ v, getValueFromNode Present w = Normal v w.
Proof.
  intros H. unfold getValueFromNode. destruct (isCheckable w).
  - unfold bind, ret.
    destruct (getField_total "checked" w H) as [v ->]; eauto.
  - by apply getField_total.
Qed.

Lemma wf_updateValueIfChanged w :
  wf w → wf (final (updateValueIfChanged Present w)).
Proof.
  intros H. unfold updateValueIfChanged, bind, getTracker.
  destruct (_valueTracker w) as [| |e]; try done.
  unfold tracker_getValue.
  destruct (environments w !! e) as [env|] eqn:He; [|done].
  destruct (getValueFromNode_cases w) as [[v ->] | ->]; [|done].
  destruct (strict_neq v (currentValue env)); [|done].
  pose proof (wf_tracker_setValue e v w H) as H'.
  by destruct (tracker_setValue e v w).
Qed.

Lemma wf_stopTracking w : wf w → wf (final (stopTracking Present w)).
Proof.
  intros H. unfold stopTracking, bind, getTracker.
  destruct (_valueTracker w) as [| |e]; try done.
  by apply wf_tracker_stopTracking.
Qed.

(** The three ways in which [trackValueOnNode] ends. *)
Lemma trackValueOnNode_cases w :
  let f := if isCheckable w then "checked" else "value" in
  (∃ w', trackValueOnNode w = Throw TypeError w' ∧ same_node w w' ∧
         (wf w → wf w') ∧
         (∀ v, getField f w = Normal v w → ToString v = None))
  ∨ (trackValueOnNode w = Normal None w ∧ bails w f)
  ∨ (∃ d g st s,
       own w !! f = None ∧ prototype w !! f = Some d ∧
       descriptor_get d = Some g ∧ descriptor_set d = Some st ∧
       getField f w = Normal (g (slots w)) w ∧
       ToString (g (slots w)) = Some s ∧
       trackValueOnNode w =
       Normal (Some (length (environments w))) (installed_world f d s w)).
Proof.
  intros f. remember (trackValueOnNode w) as o eqn:Ho.
  unfold trackValueOnNode in Ho. fold f in Ho.
  destruct (getField_cases f w) as [[v Hv] | Hthrow].
  - assert (∃ w1, (if __DEV__
                   then let* v := getField f in checkFormFieldValueStringCoercion v
                   else ret tt) w = Normal tt w1 ∧ same_node w w1 ∧
                  (wf w → wf w1) ∧ (is_Some (ToString v) → w1 = w) ∧
                  getField f w1 = Normal v w1) as (w1 & E1 & Hs & Hwf & Hid & Hv1).
    { destruct __DEV__ eqn:Hdev.
      - unfold bind. rewrite Hv. unfold checkFormFieldValueStringCoercion.
        destruct (ToString v) eqn:Hts.
        + exists w. split_and!; auto using same_node_refl.
        + eexists. split_and!; [done | by repeat split | apply wf_with_console | |].
          * by intros [? ?].
          * revert Hv. unfold getField, installed_get, read_descriptor,
              call_getter, ret, throw. simpl.
            repeat case_match; intros; simplify_eq; done.
      - exists w. split_and!; auto using same_node_refl. }
    unfold bind at 1 in Ho. rewrite E1 in Ho.
    unfold bind at 1 in Ho. rewrite Hv1 in Ho.
    unfold bind at 1, coerce in Ho.
    destruct (ToString v) as [s|] eqn:Hts.
    + rewrite (Hid (ltac:(eauto))) in *. unfold ret in Ho.
      destruct (prototype w !! f) as [d|] eqn:Hp.
      2:{ right; left. split; [done|]. unfold bails. auto. }
      unfold hasOwnProperty in Ho.
      destruct (own w !! f) as [o'|] eqn:Hown.
      { right; left. rewrite bool_decide_eq_true_2 in Ho by eauto.
        split; [done|]. unfold bails. rewrite Hown. eauto. }
      rewrite bool_decide_eq_false_2 in Ho by (by intros [? ?]).
      destruct (descriptor_get d) as [g|] eqn:Hg.
      2:{ right; left.
          rewrite bool_decide_eq_false_2 in Ho by (by intros [? ?]).
          split; [done|]. unfold bails, live_getter. rewrite Hp. auto. }
      rewrite bool_decide_eq_true_2 in Ho by eauto.
      destruct (descriptor_set d) as [st|] eqn:Hs'.
      2:{ right; left.
          rewrite bool_decide_eq_false_2 in Ho by (by intros [? ?]).
          split; [done|]. unfold bails, live_setter. rewrite Hp. auto. }
      rewrite bool_decide_eq_true_2 in Ho by eauto.
      right; right. exists d, g, st, s.
      assert (v = g (slots w)) as ->.
      { revert Hv. unfold getField. rewrite Hown, Hp.
        destruct d; simpl in *; simplify_eq. simpl. by intros [= <-]. }
      split_and!; try done.
      rewrite Ho.
      unfold bind, new_environment, defineProperty_accessor,
        defineProperty_enumerable, ret. simpl.
      rewrite Hown. simpl. rewrite lookup_insert_eq.
      unfold installed_world. by rewrite Hg, Hs'.
    + left. exists w1. unfold throw in Ho. split_and!; try done.
      intros v' Hv'. rewrite Hv in Hv'. by simplify_eq.
  - left. exists w. split_and!; auto using same_node_refl.
    + rewrite Ho. destruct __DEV__; unfold bind, ret; cbv beta iota;
        by rewrite Hthrow.
    + intros v. by rewrite Hthrow.
Qed.

Lemma wf_installed_world f d s w :
  wf w → own w !! f = None →
  is_Some (descriptor_get d) → is_Some (descriptor_set d) →
  wf (with_tracker (TObject (length (environments w))) (installed_world f d s w)).
Proof.
  intros [H1 H2 H3] Hown Hg Hs. constructor; simpl.
  - intros e env [[_ H]|[_ <-]]%lookup_snoc_Some; [eauto|].
    by split_and!.
  - intros f' e b. rewrite insert_insert_eq.
    intros [[<- [= <- <-]]|[_ H]]%lookup_insert_Some.
    + eexists. split; [apply list_lookup_middle; done | done].
    + destruct (H2 _ _ _ H) as (env & He & <-).
      exists env. split; [by apply lookup_app_l_Some | done].
  - intros e [= <-]. do 2 eexists.
    split; [apply list_lookup_middle; done|]. simpl.
    rewrite insert_insert_eq. apply lookup_insert_eq.
Qed.

Lemma wf_with_tracker_falsy t w :
  tracker_truthy t = false → wf w → wf (with_tracker t w).
Proof.
  intros Ht [H1 H2 H3]. constructor; simpl; [done..|].
  intros e ->. done.
Qed.

Lemma wf_track w : wf w → wf (final (track Present w)).
Proof.
  intros H. unfold track, bind at 1, getTracker.
  destruct (tracker_truthy (_valueTracker w)) eqn:Ht; [done|].
  unfold bind.
  destruct (trackValueOnNode_cases w)
    as [(w' & -> & _ & Hwf & _) | [[-> _] | (d & g & st & s & Ho & _ & Hg & Hs & _ & _ & ->)]].
  - simpl. auto.
  - simpl. by apply wf_with_tracker_falsy.
  - simpl. apply wf_installed_world; eauto.
Qed.

Lemma wf_perform ev w : wf w → wf (perform ev w).
Proof.
  intros H. destruct ev; simpl.
  - by apply wf_track.
  - by apply wf_updateValueIfChanged.
  - by apply wf_stopTracking.
  - by rewrite getField_final.
  - by apply wf_setField.
  - by apply wf_with_slots.
  - by apply wf_tracker_setValue.
  - by apply wf_tracker_stopTracking.
  - by apply wf_with_prototype.
  - by apply wf_with_type.
Qed.

Lemma untouched_wf w : untouched w → wf w.
Proof.
  intros (He & Ht & Ho). constructor.
  - intros e env. by rewrite He.
  - intros f e b H. by destruct (Ho f e b).
  - intros e. by rewrite Ht.
Qed.

Lemma reachable_wf w : reachable w → wf w.
Proof.
  induction 1 as [w H | w ev _ IH].
  - by apply untouched_wf.
  - by apply wf_perform.
Qed.

(** ** Reads and writes through the installed accessor *)

Lemma installed_get_spec w e env :
  environments w !! e = Some env → is_Some (captured_get env) →
  (∀ g, live_getter w (valueField env) = Some g →
        installed_get e w = Normal (g (slots w)) w) ∧
  (live_getter w (valueField env) = None →
   ∃ g, captured_get env = Some g ∧ installed_get e w = Normal (g (slots w)) w).
Proof.
  intros He [g0 Hg0]. unfold installed_get, live_getter. rewrite He.
  destruct (prototype w !! valueField env) as [d|].
  - destruct (descriptor_get d) as [g|]; split.
    + by intros g' [= <-].
    + done.
    + done.
    + intros _. exists g0. by rewrite Hg0.
  - split; [done|]. intros _. exists g0. by rewrite Hg0.
Qed.

Lemma tracked_value_recorded w e s env :
  _valueTracker w = TObject e → environments w !! e = Some env →
  tracked_value (recorded e s w) = VString s.
Proof.
  intros Ht He. unfold tracked_value, recorded. simpl. rewrite Ht.
  by rewrite list_lookup_alter_eq, He.
Qed.

Lemma tracker_getValue_recorded w e s env :
  environments w !! e = Some env →
  tracker_getValue e (recorded e s w) = Normal (VString s) (recorded e s w).
Proof.
  intros He. unfold tracker_getValue, recorded. simpl.
  by rewrite list_lookup_alter_eq, He.
Qed.

Lemma installed_set_spec w e env v s :
  environments w !! e = Some env → ToString v = Some s →
  installed_set e v w =
  call_setter
    (match live_setter w (valueField env) with
     | Some p => Some p
     | None => captured_set env
     end) v (recorded e s w).
Proof.
  intros He Hs. unfold installed_set. rewrite He. unfold bind at 1.
  destruct (dev_check_spec v w) as (w1 & -> & _ & _ & Hid).
  rewrite (Hid (ltac:(eauto))). unfold bind, coerce. rewrite Hs.
  unfold ret, assign_currentValue, live_setter, recorded. simpl.
  destruct (prototype w !! valueField env) as [d|]; [|done].
  by destruct (descriptor_set d).
Qed.

Lemma updateValueIfChanged_tracked w e env nextValue :
  _valueTracker w = TObject e → environments w !! e = Some env →
  getValueFromNode Present w = Normal nextValue w →
  updateValueIfChanged Present w =
  (if strict_neq nextValue (currentValue env)
   then let* _ := tracker_setValue e nextValue in ret true
   else ret false) w.
Proof.
  intros Ht He Hn.
  unfold updateValueIfChanged, bind at 1, getTracker. rewrite Ht.
  unfold bind at 1, tracker_getValue. rewrite He.
  unfold bind at 1. rewrite Hn.
  by destruct (strict_neq nextValue (currentValue env)).
Qed.

Lemma updateValueIfChanged_same w e env :
  _valueTracker w = TObject e → environments w !! e = Some env →
  getValueFromNode Present w = Normal (currentValue env) w →
  updateValueIfChanged Present w = Normal false w.
Proof.
  intros Ht He Hn. rewrite (updateValueIfChanged_tracked w e env _ Ht He Hn).
  unfold strict_neq. by rewrite bool_decide_eq_true_2.
Qed.

Lemma updateValueIfChanged_differs w e env nextValue s :
  _valueTracker w = TObject e → environments w !! e = Some env →
  getValueFromNode Present w = Normal nextValue w →
  nextValue ≠ currentValue env → ToString nextValue = Some s →
  updateValueIfChanged Present w = Normal true (recorded e s w).
Proof.
  intros Ht He Hn Hne Hs.
  rewrite (updateValueIfChanged_tracked w e env _ Ht He Hn).
  unfold strict_neq. rewrite bool_decide_eq_false_2 by done. simpl.
  destruct (tracker_setValue_spec e nextValue w env He)
    as (w1 & _ & _ & Hid & Hset).
  rewrite (Hid (ltac:(eauto))) in Hset. rewrite Hs in Hset.
  unfold bind. by rewrite Hset.
Qed.

Lemma getField_recorded f w e s v :
  getField f w = Normal v w →
  getField f (recorded e s w) = Normal v (recorded e s w).
Proof.
  unfold getField. simpl.
  destruct (own w !! f) as [[e0 b|d]|].
  - unfold installed_get. simpl.
    destruct (environments w !! e0) as [env0|] eqn:He0; [|done].
    destruct (alter_currentValue_fwd (VString s) e _ _ _ He0)
      as (env' & -> & -> & -> & _).
    destruct (prototype w !! valueField env0) as [d|].
    + destruct (descriptor_get d); simpl.
      * by intros [= <-].
      * destruct (captured_get env0); simpl; [by intros [= <-] | done].
    + destruct (captured_get env0); simpl; [by intros [= <-] | done].
  - destruct d as [[g|] ? ? ?|]; simpl; unfold ret; by intros [= <-].
  - destruct (prototype w !! f) as [[[g|] ? ? ?|]|]; simpl; unfold ret;
      by intros [= <-].
Qed.

Lemma getValueFromNode_recorded w e s v :
  getValueFromNode Present w = Normal v w →
  getValueFromNode Present (recorded e s w) = Normal v (recorded e s w).
Proof.
  unfold getValueFromNode.
  change (isCheckable (recorded e s w)) with (isCheckable w).
  destruct (isCheckable w).
  - unfold bind, ret.
    destruct (getField_cases "checked" w) as [[c Hc] | Hc]; rewrite Hc; [|done].
    intros [= <-]. by rewrite (getField_recorded _ _ e s _ Hc).
  - apply getField_recorded.
Qed.

(** C1. On a node that carries the installed accessor, every read of the
    field looks the class-level descriptor up in the world as it is at the
    time of the read and returns what that descriptor's getter returns when
    there is one; when the class has no descriptor for the field, or one
    without a getter, it returns what the getter captured at installation
    returns. In both cases the read completes normally and leaves the world
    as it was. *)
Theorem C1_read_delegates_to_live_getter w f e b :
  reachable w → own w !! f = Some (Installed e b) →
  ∃ env,
    environments w !! e = Some env ∧ valueField env = f ∧
    (∀ g, live_getter w f = Some g →
          getField f w = Normal (g (slots w)) w) ∧
    (live_getter w f = None →
     ∃ g, captured_get env = Some g ∧ getField f w = Normal (g (slots w)) w).
Proof.
  intros Hr Hown. pose proof (reachable_wf w Hr) as Hwf.
  destruct (wf_own w Hwf f e b Hown) as (env & He & Hf).
  destruct (wf_envs w Hwf e env He) as (Hg & _ & _).
  exists env. split_and!; [done..| |].
  - intros g Hl. unfold getField. rewrite Hown.
    apply (installed_get_spec w e env He Hg). by rewrite Hf.
  - intros Hl. unfold getField. rewrite Hown.
    apply (installed_get_spec w e env He Hg). by rewrite Hf.
Qed.

(** C2. On a node that carries the installed accessor, a write of a value
    [v] whose string form is [s] first records [s] in [currentValue] and
    then runs the class-level setter (the one the class has at the time of
    the write, else the captured one) in the world where [s] is already
    recorded: a read of the tracker in that world returns [s], and every
    read of the node's tracker that the setter makes while it runs sees
    [s]. *)
Theorem C2_write_records_before_delegating w f e b v s :
  reachable w → own w !! f = Some (Installed e b) → ToString v = Some s →
  ∃ env p,
    environments w !! e = Some env ∧
    (live_setter w f = Some p ∨
     (live_setter w f = None ∧ captured_set env = Some p)) ∧
    tracker_getValue e (recorded e s w) = Normal (VString s) (recorded e s w) ∧
    setField f v w = Normal tt (run (p v) (recorded e s w)) ∧
    (_valueTracker w = TObject e →
     Forall (λ x, x = VString s) (tracker_reads (p v) (recorded e s w))).
Proof.
  intros Hr Hown Hs. pose proof (reachable_wf w Hr) as Hwf.
  destruct (wf_own w Hwf f e b Hown) as (env & He & Hf).
  destruct (wf_envs w Hwf e env He) as (_ & [p0 Hp0] & _).
  assert (∃ p, (live_setter w f = Some p ∨
                (live_setter w f = None ∧ captured_set env = Some p)) ∧
               match live_setter w (valueField env) with
               | Some p => Some p
               | None => captured_set env
               end = Some p) as (p & Hp & Hsel).
  { rewrite Hf. destruct (live_setter w f) as [p|]; eauto. }
  exists env, p. split_and!; [done..| | |].
  - by eapply tracker_getValue_recorded.
  - unfold setField. rewrite Hown.
    by rewrite (installed_set_spec w e env v s He Hs), Hsel.
  - intros Ht. erewrite <- tracked_value_recorded by done.
    apply tracker_reads_constant.
Qed.

(** C3. [updateValueIfChanged] returns false for an absent node, and true
    for a node without a tracker, leaving the world as it was. With a
    tracker attached it reads the tracker's recorded value and the node's
    value afresh; if they are the same value it returns false and changes
    nothing; if they differ it calls the tracker's [setValue] with the fresh
    value and returns true, after which the tracker has recorded the fresh
    value's string form. *)
Theorem C3_updateValueIfChanged_cases w :
  updateValueIfChanged Absent w = Normal false w ∧
  (tracker_truthy (_valueTracker w) = false →
   updateValueIfChanged Present w = Normal true w) ∧
  (∀ e, reachable w → _valueTracker w = TObject e →
   ∃ lastValue nextValue,
     tracker_getValue e w = Normal lastValue w ∧
     getValueFromNode Present w = Normal nextValue w ∧
     (nextValue = lastValue →
      updateValueIfChanged Present w = Normal false w) ∧
     (nextValue ≠ lastValue →
      updateValueIfChanged Present w =
      (let* _ := tracker_setValue e nextValue in ret true) w ∧
      ∀ s, ToString nextValue = Some s →
           updateValueIfChanged Present w = Normal true (recorded e s w) ∧
           tracker_getValue e (recorded e s w)
           = Normal (VString s) (recorded e s w))).
Proof.
  split_and!.
  - done.
  - intros Ht. unfold updateValueIfChanged, bind, getTracker.
    by destruct (_valueTracker w).
  - intros e Hr Ht. pose proof (reachable_wf w Hr) as Hwf.
    destruct (wf_tracker w Hwf e Ht) as (env & b & He & _).
    destruct (getValueFromNode_total w Hwf) as [nextValue Hn].
    exists (currentValue env), nextValue.
    assert (tracker_getValue e w = Normal (currentValue env) w) as Hl.
    { unfold tracker_getValue. by rewrite He. }
    split_and!; [done..| |].
    + intros ->. by eapply updateValueIfChanged_same.
    + intros Hne. split.
      * rewrite (updateValueIfChanged_tracked w e env _ Ht He Hn).
        unfold strict_neq. by rewrite bool_decide_eq_false_2.
      * intros s Hs. split.
        -- by eapply updateValueIfChanged_differs.
        -- by eapply tracker_getValue_recorded.
Qed.

(** C4 (amended). On a node with a tracker attached whose recorded value is
    the string the node reads, after a change of the control's internal
    state that does not pass through the node's own accessor (a change made
    by the host, such as user input) and makes the node read a different
    string, the first [updateValueIfChanged] returns true and records the
    new string, and a second one returns false. *)
Theorem C4_host_change_reported_once w e sl s0 s1 :
  reachable w → _valueTracker w = TObject e →
  tracker_getValue e w = Normal (VString s0) w →
  getValueFromNode Present w = Normal (VString s0) w →
  getValueFromNode Present (with_slots sl w)
  = Normal (VString s1) (with_slots sl w) →
  s1 ≠ s0 →
  let w1 := with_slots sl w in
  let w2 := recorded e s1 w1 in
  updateValueIfChanged Present w1 = Normal true w2 ∧
  tracker_getValue e w2 = Normal (VString s1) w2 ∧
  updateValueIfChanged Present w2 = Normal false w2.
Proof.
  intros Hr Ht Hl _ Hn Hne w1 w2.
  pose proof (reachable_wf w Hr) as Hwf.
  destruct (wf_tracker w Hwf e Ht) as (env & b & He & _).
  assert (currentValue env = VString s0) as Hc.
  { revert Hl. unfold tracker_getValue. rewrite He. by intros [= ->]. }
  assert (environments w1 !! e = Some env) as He1 by done.
  split_and!.
  - apply (updateValueIfChanged_differs w1 e env (VString s1)); try done.
    rewrite Hc. congruence.
  - by eapply tracker_getValue_recorded.
  - destruct (alter_currentValue_fwd (VString s1) e _ _ _ He1)
      as (env2 & He2 & _).
    assert (currentValue env2 = VString s1) as Hc2.
    { revert He2. rewrite list_lookup_alter_eq, He1. by intros [= <-]. }
    apply (updateValueIfChanged_same w2 e env2); [done..|].
    rewrite Hc2. by apply getValueFromNode_recorded.
Qed.

(** C5. When the node owns a property of the field's name, or its class has
    no descriptor for the field, or the descriptor has no getter, or no
    setter, [trackValueOnNode] never returns a tracker, and the world it
    leaves has the same own properties, the same tracker reference, the same
    closures, class and internal state as before: nothing is defined on the
    node and no tracker is created. When the field's value has a string
    form, it returns nothing and leaves the world exactly as it was. *)
Theorem C5_bail_returns_nothing_changes_nothing w :
  bails w (if isCheckable w then "checked" else "value") →
  (∀ e w', trackValueOnNode w ≠ Normal (Some e) w') ∧
  same_node w (final (trackValueOnNode w)) ∧
  (∀ v, getField (if isCheckable w then "checked" else "value") w = Normal v w →
        is_Some (ToString v) → trackValueOnNode w = Normal None w).
Proof.
  intros Hb.
  destruct (trackValueOnNode_cases w)
    as [(w' & E & Hs & _ & Hv) | [[E _] | (d & g & st & s & Ho & Hp & Hg & Hst & _)]].
  - rewrite E. split_and!; [done..|].
    intros v Hget [s Hs']. by rewrite (Hv v Hget) in Hs'.
  - rewrite E. split_and!; [done | apply same_node_refl | done].
  - exfalso. destruct Hb as [[o Hb] | [Hb | [Hb | Hb]]].
    + by rewrite Ho in Hb.
    + by rewrite Hp in Hb.
    + unfold live_getter in Hb. rewrite Hp in Hb. by rewrite Hg in Hb.
    + unfold live_setter in Hb. rewrite Hp in Hb. by rewrite Hst in Hb.
Qed.

Lemma isCheckable_spec w :
  isCheckable w = true ↔
  toLowerCase (nodeName w) = "input" ∧
  (type w = "checkbox" ∨ type w = "radio").
Proof.
  unfold isCheckable.
  rewrite !andb_true_iff, orb_true_iff, !String.eqb_eq. split.
  - by intros [[_ ?] ?].
  - intros [Hn Ht]. split_and!; [|done..].
    destruct (nodeName w); [done|]. done.
Qed.

(** C6. [getValueFromNode] returns the empty string for an absent node. For
    a node whose [nodeName], lowered, is ["input"] and whose [type] is
    ["checkbox"] or ["radio"], it returns ["true"] if the [checked] field
    reads truthy and ["false"] otherwise; for every other node it returns
    what the [value] field reads, as it is. It never changes the world. *)
Theorem C6_getValueFromNode_value w :
  getValueFromNode Absent w = Normal (VString "") w ∧
  (isCheckable w = true ↔
   toLowerCase (nodeName w) = "input" ∧
   (type w = "checkbox" ∨ type w = "radio")) ∧
  (reachable w →
   if isCheckable w
   then ∃ checked,
          getField "checked" w = Normal checked w ∧
          getValueFromNode Present w
          = Normal (VString (if ToBoolean checked then "true" else "false")) w
   else ∃ v, getField "value" w = Normal v w ∧
             getValueFromNode Present w = Normal v w).
Proof.
  split_and!; [done | apply isCheckable_spec |].
  intros Hr. pose proof (reachable_wf w Hr) as Hwf.
  unfold getValueFromNode. destruct (isCheckable w).
  - destruct (getField_total "checked" w Hwf) as [c Hc].
    exists c. split; [done|]. unfold bind. by rewrite Hc.
  - destruct (getField_total "value" w Hwf) as [v Hv]. eauto.
Qed.

(** C7. On a node whose fields have the host's types and which has no
    tracker, if [track] attaches one, then [updateValueIfChanged] called
    next returns false and changes nothing: the value seeded at
    installation is the value read afresh. *)
Theorem C7_track_then_update_returns_false w w' e :
  host_typed w → tracker_truthy (_valueTracker w) = false →
  track Present w = Normal tt w' → _valueTracker w' = TObject e →
  updateValueIfChanged Present w' = Normal false w'.
Proof.
  intros (v & Hv & Hty) Hfalsy Htrack Ht'.
  unfold track, bind at 1, getTracker in Htrack. rewrite Hfalsy in Htrack.
  unfold bind in Htrack.
  destruct (trackValueOnNode_cases w)
    as [(w1 & E & _) | [[E _] | (d & g & st & s & Ho & Hp & Hg & Hst & Hget & Hs & E)]];
    rewrite E in Htrack; [done | | ].
  { injection Htrack as <-. done. }
  injection Htrack as <-. simpl in Ht'. injection Ht' as <-.
  set (f := if isCheckable w then "checked" else "value") in *.
  set (n := length (environments w)).
  set (env := {| valueField := f; captured_get := descriptor_get d;
                 captured_set := descriptor_set d; currentValue := VString s |}).
  set (w' := with_tracker (TObject n) (installed_world f d s w)).
  assert (environments w' !! n = Some env) as He.
  { simpl. by apply list_lookup_middle. }
  assert (getField f w' = Normal (g (slots w)) w') as Hget'.
  { assert (own w' !! f = Some (Installed n (descriptor_enumerable d))) as Ho'
      by apply lookup_insert_eq.
    assert (prototype w' !! f = Some d) as Hp' by done.
    unfold getField. rewrite Ho'.
    unfold installed_get. rewrite He.
    change (valueField env) with f. by rewrite Hp', Hg. }
  rewrite Hget in Hv. injection Hv as <-.
  apply (updateValueIfChanged_same w' n env); [done..|].
  unfold getValueFromNode. change (isCheckable w') with (isCheckable w).
  subst f. simpl. destruct (isCheckable w).
  - unfold bind. rewrite Hget'.
    destruct (g (slots w)) as [| |[]| |]; simpl in *; by simplify_eq.
  - rewrite Hget'.
    destruct (g (slots w)); simpl in *; by simplify_eq.
Qed.

(** C8. [track] on a node that has a tracker attached returns at once and
    leaves the world exactly as it was: the same tracker reference, the
    same own properties, the same closures. *)
Theorem C8_track_idempotent w e :
  _valueTracker w = TObject e →
  track Present w = Normal tt w ∧
  _valueTracker (final (track Present w)) = TObject e ∧
  own (final (track Present w)) = own w ∧
  environments (final (track Present w)) = environments w.
Proof.
  intros Ht.
  assert (track Present w = Normal tt w) as ->; [|done].
  unfold track, bind, getTracker. by rewrite Ht.
Qed.

Lemma setField_class f v w p :
  own w !! f = None → live_setter w f = Some p →
  setField f v w = Normal tt (run (p v) w).
Proof.
  intros Ho Hp. unfold setField. rewrite Ho.
  unfold live_setter in Hp.
  destruct (prototype w !! f) as [[g s en c|]|]; simpl in Hp; by simplify_eq.
Qed.

Lemma getField_class f w g :
  own w !! f = None → live_getter w f = Some g →
  getField f w = Normal (g (slots w)) w.
Proof.
  intros Ho Hp. unfold getField. rewrite Ho.
  unfold live_getter in Hp.
  destruct (prototype w !! f) as [[g' s en c|]|]; simpl in Hp; by simplify_eq.
Qed.

(** C9. On a node with a tracker attached, [stopTracking] sets the tracker
    reference to null and deletes the own accessor of the tracked field and
    changes nothing else; afterwards a read of the field returns what the
    class-level getter returns and a write runs the class-level setter, with
    nothing recorded. On a node without a tracker, [stopTracking] leaves the
    world exactly as it was. *)
Theorem C9_stopTracking_detaches w :
  (∀ e, reachable w → _valueTracker w = TObject e →
   ∃ env b,
     environments w !! e = Some env ∧
     own w !! valueField env = Some (Installed e b) ∧
     let f := valueField env in
     let w' := with_own (delete f (own w)) (with_tracker TNull w) in
     stopTracking Present w = Normal tt w' ∧
     _valueTracker w' = TNull ∧ own w' !! f = None ∧
     (∀ g, live_getter w' f = Some g →
           getField f w' = Normal (g (slots w')) w') ∧
     (∀ p v, live_setter w' f = Some p →
             setField f v w' = Normal tt (run (p v) w') ∧
             environments (run (p v) w') = environments w)) ∧
  (tracker_truthy (_valueTracker w) = false →
   stopTracking Present w = Normal tt w).
Proof.
  split.
  - intros e Hr Ht. pose proof (reachable_wf w Hr) as Hwf.
    destruct (wf_tracker w Hwf e Ht) as (env & b & He & Ho).
    exists env, b. split_and!; [done..|]. intros f w'.
    assert (own w' !! f = None) as Ho' by apply lookup_delete_eq.
    split_and!; [|done..| |].
    + unfold stopTracking, bind, getTracker. rewrite Ht.
      unfold tracker_stopTracking. rewrite He.
      unfold bind, detachTracker, deleteField.
      change (own (with_tracker TNull w)) with (own w). by rewrite Ho.
    + intros g Hg. by apply getField_class.
    + intros p v Hp. split; [by apply setField_class|].
      by rewrite run_frame.
  - intros Ht. unfold stopTracking, bind, getTracker.
    by destruct (_valueTracker w).
Qed.

Lemma setField_environments f v w :
  length (environments (final (setField f v w))) = length (environments w).
Proof.
  unfold setField, define_own_data.
  assert (∀ s w0, length (environments (final (call_setter s v w0)))
                  = length (environments w0)) as Hcall.
  { intros [p|] w0; simpl; [by rewrite run_frame | done]. }
  destruct (own w !! f) as [[e b|d]|].
  - unfold installed_set. destruct (environments w !! e) as [env|]; [|done].
    rewrite final_bind.
    destruct (dev_check_spec v w) as (w1 & -> & Hs & _).
    destruct Hs as (_ & _ & _ & _ & _ & _ & <-).
    rewrite final_bind. unfold coerce. destruct (ToString v); simpl; [|done].
    rewrite final_bind. unfold assign_currentValue. cbv beta iota.
    transitivity (length (alter (with_currentValue (VString s)) e (environments w1)));
      [|apply length_alter].
    repeat case_match; first [apply Hcall | apply (Hcall (Some _))].
  - destruct d as [g s en c|x [] en c]; simpl; try done; apply Hcall.
  - destruct (prototype w !! f) as [[g s en c|x [] en c]|]; simpl; try done;
      apply Hcall.
Qed.

Lemma tracker_setValue_environments e v w :
  length (environments (final (tracker_setValue e v w)))
  = length (environments w).
Proof.
  destruct (environments w !! e) as [env|] eqn:He.
  - destruct (tracker_setValue_spec e v w env He) as (w1 & Hs & _ & _ & ->).
    destruct Hs as (_ & _ & _ & _ & _ & _ & <-).
    destruct (ToString v); simpl; [apply length_alter | done].
  - unfold tracker_setValue. by rewrite He.
Qed.

Lemma reachable_getValue_string w e :
  reachable w → e < length (environments w) →
  ∃ s, tracker_getValue e w = Normal (VString s) w.
Proof.
  intros Hr Hlt. pose proof (reachable_wf w Hr) as Hwf.
  destruct (lookup_lt_is_Some_2 _ _ Hlt) as [env He].
  destruct (wf_envs w Hwf e env He) as (_ & _ & Hstr).
  unfold tracker_getValue. rewrite He.
  destruct (currentValue env); try done. eauto.
Qed.

(** C10. In every world that can be reached from an untouched node by calls
    of the exported functions, reads and writes of fields, changes made by
    the host, and calls of a tracker's methods with any arguments, the
    [currentValue] of every tracker is a string, so that [getValue] returns
    a string: the tracker that [track] attaches is seeded with a string, and
    a tracker still holds a string after [setValue] was called with any
    value and after any value was written to a field of the node. *)
Theorem C10_currentValue_is_a_string w :
  reachable w →
  (∀ e, _valueTracker (final (track Present w)) = TObject e →
        ∃ s, tracker_getValue e (final (track Present w))
             = Normal (VString s) (final (track Present w))) ∧
  (∀ e, is_Some (environments w !! e) →
        (∃ s, tracker_getValue e w = Normal (VString s) w) ∧
        (∀ v, ∃ s, tracker_getValue e (final (tracker_setValue e v w))
                   = Normal (VString s) (final (tracker_setValue e v w))) ∧
        (∀ f v, ∃ s, tracker_getValue e (final (setField f v w))
                     = Normal (VString s) (final (setField f v w)))).
Proof.
  intros Hr. split.
  - intros e Ht.
    pose proof (reachable_perform w CallTrack Hr) as Hr'.
    destruct (wf_tracker _ (reachable_wf _ Hr') e Ht) as (env & _ & He & _).
    apply (reachable_getValue_string _ e Hr').
    by apply lookup_lt_Some in He.
  - intros e Hsome. apply lookup_lt_is_Some_1 in Hsome. split_and!.
    + by apply reachable_getValue_string.
    + intros v. apply reachable_getValue_string.
      * apply (reachable_perform w (UseSetValue e v) Hr).
      * by rewrite tracker_setValue_environments.
    + intros f v. apply reachable_getValue_string.
      * apply (reachable_perform w (WriteField f v) Hr).
      * by rewrite setField_environments.
Qed.

(** ** Further properties of the module *)

Lemma getField_agree f w1 w2 v :
  own w2 !! f = own w1 !! f → prototype w2 = prototype w1 →
  slots w2 = slots w1 →
  (∀ e env, environments w1 !! e = Some env →
            ∃ env', environments w2 !! e = Some env' ∧
                    valueField env' = valueField env ∧
                    captured_get env' = captured_get env) →
  getField f w1 = Normal v w1 → getField f w2 = Normal v w2.
Proof.
  intros Ho Hp Hs He. unfold getField. rewrite Ho.
  destruct (own w1 !! f) as [[e0 b|d]|].
  - unfold installed_get.
    destruct (environments w1 !! e0) as [env0|] eqn:E; [|done].
    destruct (He _ _ E) as (env' & -> & -> & ->). rewrite Hp.
    destruct (prototype w1 !! valueField env0) as [d|].
    + destruct (descriptor_get d); simpl.
      * rewrite Hs. by intros [= <-].
      * destruct (captured_get env0); simpl; [|done].
        rewrite Hs. by intros [= <-].
    + destruct (captured_get env0); simpl; [|done].
      rewrite Hs. by intros [= <-].
  - destruct d as [[g|] ? ? ?|]; simpl; unfold ret; rewrite ?Hs;
      by intros [= <-].
  - rewrite Hp.
    destruct (prototype w1 !! f) as [[[g|] ? ? ?|]|]; simpl; unfold ret;
      rewrite ?Hs; by intros [= <-].
Qed.

Lemma getValueFromNode_agree w1 w2 v :
  nodeName w2 = nodeName w1 → type w2 = type w1 →
  (∀ f v, getField f w1 = Normal v w1 → getField f w2 = Normal v w2) →
  getValueFromNode Present w1 = Normal v w1 →
  getValueFromNode Present w2 = Normal v w2.
Proof.
  intros Hn Ht Hget. unfold getValueFromNode, isCheckable. rewrite Hn, Ht.
  fold (isCheckable w1). destruct (isCheckable w1).
  - unfold bind, ret.
    destruct (getField_cases "checked" w1) as [[c Hc] | Hc]; rewrite Hc; [|done].
    intros [= <-]. by rewrite (Hget _ _ Hc).
  - apply Hget.
Qed.

Lemma trackValueOnNode_bails w v :
  bails w (if isCheckable w then "checked" else "value") →
  getField (if isCheckable w then "checked" else "value") w = Normal v w →
  is_Some (ToString v) →
  trackValueOnNode w = Normal None w.
Proof.
  intros Hb Hget [s Hs].
  destruct (trackValueOnNode_cases w)
    as [(w' & _ & _ & _ & Hv) | [[E _] | (d & g & st & s' & Ho & Hp & Hg & Hst & _)]].
  - by rewrite (Hv v Hget) in Hs.
  - done.
  - exfalso. destruct Hb as [[o Hb] | [Hb | [Hb | Hb]]].
    + by rewrite Ho in Hb.
    + by rewrite Hp in Hb.
    + unfold live_getter in Hb. rewrite Hp in Hb. by rewrite Hg in Hb.
    + unfold live_setter in Hb. rewrite Hp in Hb. by rewrite Hst in Hb.
Qed.

(** X1. When none of the bail conditions holds and the field's value has a
    string form [s], [trackValueOnNode] returns a tracker that no earlier
    closure is: its recorded value is [s], the node's own property for the
    field is the accessor of this tracker with the enumerability of the
    class descriptor, the other own properties, the earlier closures, the
    tracker reference, the class and the internal state are as before. *)
Theorem X1_trackValueOnNode_installs w v s :
  ¬ bails w (if isCheckable w then "checked" else "value") →
  getField (if isCheckable w then "checked" else "value") w = Normal v w →
  ToString v = Some s →
  ∃ d w',
    prototype w !! (if isCheckable w then "checked" else "value") = Some d ∧
    trackValueOnNode w = Normal (Some (length (environments w))) w' ∧
    environments w !! length (environments w) = None ∧
    tracker_getValue (length (environments w)) w' = Normal (VString s) w' ∧
    own w' = <[(if isCheckable w then "checked" else "value") :=
                 Installed (length (environments w)) (descriptor_enumerable d)]>
               (own w) ∧
    (∀ e env, environments w !! e = Some env →
              environments w' !! e = Some env) ∧
    length (environments w') = S (length (environments w)) ∧
    _valueTracker w' = _valueTracker w ∧ prototype w' = prototype w ∧
    slots w' = slots w.
Proof.
  intros Hnb Hget Hs.
  destruct (trackValueOnNode_cases w)
    as [(w' & _ & _ & _ & Hv) | [[_ Hb] | (d & g & st & s' & Ho & Hp & Hg & Hst & Hget' & Hs' & E)]].
  - rewrite (Hv v Hget) in Hs. done.
  - done.
  - rewrite Hget in Hget'. injection Hget' as ->.
    rewrite Hs in Hs'. injection Hs' as <-.
    exists d. eexists. split_and!; [done | exact E | ..]; simpl.
    + apply lookup_ge_None_2. lia.
    + unfold tracker_getValue. simpl. by rewrite list_lookup_middle.
    + apply insert_insert_eq.
    + intros e env He. by apply lookup_app_l_Some.
    + rewrite length_app. simpl. lia.
    + done.
    + done.
    + done.
Qed.

Lemma track_untracked w :
  tracker_truthy (_valueTracker w) = false →
  track Present w =
  match trackValueOnNode w with
  | Normal r w' =>
      Normal tt
        (with_tracker (match r with Some e => TObject e | None => TUndefined end) w')
  | Throw e w' => Throw e w'
  end.
Proof.
  intros Hf. unfold track, bind at 1, getTracker. by rewrite Hf.
Qed.

Lemma getField_with_tracker f t w v :
  getField f w = Normal v w →
  getField f (with_tracker t w) = Normal v (with_tracker t w).
Proof. apply getField_agree; eauto. Qed.

(** X2. On a node without a tracker for which a bail condition holds (and
    whose field's value has a string form), [track] only sets the tracker
    reference to undefined; [updateValueIfChanged] then returns true and
    changes nothing, and a further [track] bails in the same way: the node
    is reported as changed every time. *)
Theorem X2_track_bail_reports_always w v :
  tracker_truthy (_valueTracker w) = false →
  bails w (if isCheckable w then "checked" else "value") →
  getField (if isCheckable w then "checked" else "value") w = Normal v w →
  is_Some (ToString v) →
  track Present w = Normal tt (with_tracker TUndefined w) ∧
  updateValueIfChanged Present (with_tracker TUndefined w)
  = Normal true (with_tracker TUndefined w) ∧
  track Present (with_tracker TUndefined w)
  = Normal tt (with_tracker TUndefined w).
Proof.
  intros Hf Hb Hget Hs. split_and!.
  - rewrite (track_untracked w Hf).
    by rewrite (trackValueOnNode_bails w v Hb Hget Hs).
  - done.
  - rewrite (track_untracked (with_tracker TUndefined w)) by done.
    rewrite (trackValueOnNode_bails (with_tracker TUndefined w) v); [done|done| |done].
    by apply (getField_with_tracker _ TUndefined) in Hget.
Qed.

Lemma track_cases w :
  tracker_truthy (_valueTracker w) = false →
  (∃ w', track Present w = Throw TypeError w' ∧ same_node w w')
  ∨ track Present w = Normal tt (with_tracker TUndefined w)
  ∨ (∃ d g st s,
       own w !! (if isCheckable w then "checked" else "value") = None ∧
       prototype w !! (if isCheckable w then "checked" else "value") = Some d ∧
       descriptor_get d = Some g ∧ descriptor_set d = Some st ∧
       getField (if isCheckable w then "checked" else "value") w
       = Normal (g (slots w)) w ∧
       ToString (g (slots w)) = Some s ∧
       track Present w =
       Normal tt (with_tracker (TObject (length (environments w)))
                    (installed_world
                       (if isCheckable w then "checked" else "value") d s w))).
Proof.
  intros Hf. rewrite (track_untracked w Hf).
  destruct (trackValueOnNode_cases w)
    as [(w' & -> & Hs & _) | [[-> _] | (d & g & st & s & Ho & Hp & Hg & Hst & Hget & Hs & ->)]].
  - left. eauto.
  - right; left. done.
  - right; right. exists d, g, st, s. by split_and!.
Qed.

(** X3. [track] followed by [stopTracking] restores the node, but for its
    tracker reference: when [track] attaches a tracker to a node that had
    none, [stopTracking] then leaves [_valueTracker] null, and every other
    property is owned as it was before [track], the class and the internal
    state are the same, and every property other than [_valueTracker] reads
    what it read before. *)
Theorem X3_track_stopTracking_restores w w' e :
  tracker_truthy (_valueTracker w) = false →
  track Present w = Normal tt w' → _valueTracker w' = TObject e →
  ∃ w'', stopTracking Present w' = Normal tt w'' ∧
         _valueTracker w'' = TNull ∧
         (∀ f, f ≠ "_valueTracker" → own w'' !! f = own w !! f) ∧
         slots w'' = slots w ∧ prototype w'' = prototype w ∧
         (∀ f v, f ≠ "_valueTracker" →
                 getField f w = Normal v w → getField f w'' = Normal v w'').
Proof.
  intros Hf Htrack Ht'.
  destruct (track_cases w Hf)
    as [(w1 & E & _) | [E | (d & g & st & s & Ho & Hp & Hg & Hst & _ & _ & E)]];
    rewrite E in Htrack; [done | | ].
  { injection Htrack as <-. done. }
  injection Htrack as <-. simpl in Ht'. injection Ht' as <-.
  eexists. split_and!.
  - unfold stopTracking, bind, getTracker. simpl.
    unfold tracker_stopTracking. simpl. rewrite list_lookup_middle by done.
    unfold bind, detachTracker, deleteField. simpl.
    rewrite insert_insert_eq, lookup_insert_eq. done.
  - done.
  - intros f' _. simpl. rewrite delete_insert_eq. by rewrite delete_id.
  - done.
  - done.
  - intros f' v _. apply getField_agree; simpl; try done.
    + rewrite delete_insert_eq. by rewrite delete_id.
    + intros e env He. exists env. split_and!; [|done..].
      by apply lookup_app_l_Some.
Qed.

(** X4. [track] changes the tracker reference and nothing else that can be
    read from the node: every property other than [_valueTracker], and
    [getValueFromNode], yield after [track] the value they yielded before,
    whether [track] attached a tracker or not. *)
Theorem X4_track_keeps_reads w w' :
  track Present w = Normal tt w' →
  (∀ f v, f ≠ "_valueTracker" →
          getField f w = Normal v w → getField f w' = Normal v w') ∧
  (∀ v, getValueFromNode Present w = Normal v w →
        getValueFromNode Present w' = Normal v w').
Proof.
  intros Htrack.
  assert (nodeName w' = nodeName w ∧ type w' = type w ∧
          ∀ f v, getField f w = Normal v w → getField f w' = Normal v w')
    as (Hn & Hty & Hget).
  { destruct (tracker_truthy (_valueTracker w)) eqn:Hf.
    { unfold track, bind, getTracker in Htrack. rewrite Hf in Htrack.
      injection Htrack as <-. done. }
    destruct (track_cases w Hf)
      as [(w1 & E & _) | [E | (d & g & st & s & Ho & Hp & Hg & Hst & Hget0 & _ & E)]];
      rewrite E in Htrack; [done | | ]; injection Htrack as <-;
      set (f0 := if isCheckable w then "checked" else "value") in *.
    - split_and!; [done..|]. intros f v. apply getField_with_tracker.
    - split_and!; [done..|]. intros f v Hget.
      destruct (decide (f = f0)) as [->|Hne].
      + rewrite Hget0 in Hget. injection Hget as <-.
        unfold getField. simpl. rewrite lookup_insert_eq.
        unfold installed_get. simpl. rewrite list_lookup_middle by done.
        simpl. by rewrite Hp, Hg.
      + revert Hget. apply getField_agree; simpl; try done.
        * by rewrite !lookup_insert_ne.
        * intros e env He. exists env. split_and!; [|done..].
          by apply lookup_app_l_Some. }
  split; [by intros f v _; apply Hget|].
  intros v. by apply getValueFromNode_agree.
Qed.

(** X5. A write made through a tracked node is recorded, so it is not
    reported: after a value with string form [s] was written to the tracked
    field through the node, if the node then reads [s], the next
    [updateValueIfChanged] returns false and changes nothing. *)
Theorem X5_write_through_node_not_reported w f e b v s w1 :
  reachable w → _valueTracker w = TObject e →
  own w !! f = Some (Installed e b) → ToString v = Some s →
  setField f v w = Normal tt w1 →
  getValueFromNode Present w1 = Normal (VString s) w1 →
  updateValueIfChanged Present w1 = Normal false w1.
Proof.
  intros Hr Ht Hown Hs Hset Hread. pose proof (reachable_wf w Hr) as Hwf.
  destruct (wf_own w Hwf f e b Hown) as (env & He & Hf).
  unfold setField in Hset. rewrite Hown in Hset.
  rewrite (installed_set_spec w e env v s He Hs) in Hset.
  destruct (match live_setter w (valueField env) with
            | Some p => Some p
            | None => captured_set env
            end) as [p|]; simpl in Hset; [|done].
  injection Hset as <-.
  destruct (alter_currentValue_fwd (VString s) e _ _ _ He) as (env2 & He2 & _).
  assert (currentValue env2 = VString s) as Hc2.
  { revert He2. rewrite list_lookup_alter_eq, He. by intros [= <-]. }
  apply (updateValueIfChanged_same _ e env2).
  - by rewrite run_frame.
  - by rewrite run_frame.
  - by rewrite Hc2.
Qed.

(** X6. [updateValueIfChanged] resynchronises the tracker: on a node with a
    tracker attached that reads a string [s], a call completes normally and
    leaves [s] recorded, and a second call returns false and changes
    nothing, whatever the first call returned. *)
Theorem X6_updateValueIfChanged_resynchronises w e s :
  reachable w → _valueTracker w = TObject e →
  getValueFromNode Present w = Normal (VString s) w →
  ∃ b w', updateValueIfChanged Present w = Normal b w' ∧
          tracker_getValue e w' = Normal (VString s) w' ∧
          updateValueIfChanged Present w' = Normal false w'.
Proof.
  intros Hr Ht Hn. pose proof (reachable_wf w Hr) as Hwf.
  destruct (wf_tracker w Hwf e Ht) as (env & b & He & _).
  destruct (decide (VString s = currentValue env)) as [Heq|Hne].
  - assert (updateValueIfChanged Present w = Normal false w) as Hu.
    { apply (updateValueIfChanged_same w e env); [done..|]. by rewrite <- Heq. }
    exists false, w. split_and!; [done| |done].
    unfold tracker_getValue. by rewrite He, Heq.
  - exists true, (recorded e s w). split_and!.
    + by apply (updateValueIfChanged_differs w e env (VString s)).
    + by eapply tracker_getValue_recorded.
    + destruct (alter_currentValue_fwd (VString s) e _ _ _ He)
        as (env2 & He2 & _).
      assert (currentValue env2 = VString s) as Hc2.
      { revert He2. rewrite list_lookup_alter_eq, He. by intros [= <-]. }
      apply (updateValueIfChanged_same (recorded e s w) e env2); [done..|].
      rewrite Hc2. by apply getValueFromNode_recorded.
Qed.

Lemma updateValueIfChanged_non_string w e v :
  wf w → _valueTracker w = TObject e →
  getValueFromNode Present w = Normal v w → is_string v = false →
  ∀ w', updateValueIfChanged Present w ≠ Normal false w'.
Proof.
  intros Hwf Ht Hn Hns w'.
  destruct (wf_tracker w Hwf e Ht) as (env & b & He & _).
  destruct (wf_envs w Hwf e env He) as (_ & _ & Hstr).
  rewrite (updateValueIfChanged_tracked w e env v Ht He Hn).
  assert (strict_neq v (currentValue env) = true) as ->.
  { unfold strict_neq. rewrite bool_decide_eq_false_2; [done|].
    intros ->. by rewrite Hstr in Hns. }
  unfold bind, ret. by destruct (tracker_setValue e v w).
Qed.

(** X7. The comparison is strict and the recorded value is a string, so a
    node that reads something that is not a string is never found
    unchanged: [updateValueIfChanged] never returns false on it, and when
    the value has a string form it returns true, records that form, and
    does so again on the next call. *)
Theorem X7_non_string_read_always_reported w e v :
  reachable w → _valueTracker w = TObject e →
  getValueFromNode Present w = Normal v w → is_string v = false →
  (∀ w', updateValueIfChanged Present w ≠ Normal false w') ∧
  (∀ s, ToString v = Some s →
        updateValueIfChanged Present w = Normal true (recorded e s w) ∧
        ∀ w', updateValueIfChanged Present (recorded e s w) ≠ Normal false w').
Proof.
  intros Hr Ht Hn Hns. pose proof (reachable_wf w Hr) as Hwf. split.
  - by apply (updateValueIfChanged_non_string w e v).
  - intros s Hs. destruct (wf_tracker w Hwf e Ht) as (env & b & He & _).
    destruct (wf_envs w Hwf e env He) as (_ & _ & Hstr). split.
    + apply (updateValueIfChanged_differs w e env v); [done..| |done].
      intros ->. by rewrite Hstr in Hns.
    + apply (updateValueIfChanged_non_string (recorded e s w) e v);
        [by apply wf_recorded | done | by apply getValueFromNode_recorded | done].
Qed.

Lemma setField_tracker f v w :
  _valueTracker (final (setField f v w)) = _valueTracker w.
Proof.
  unfold setField, define_own_data.
  assert (∀ s w0, _valueTracker (final (call_setter s v w0))
                  = _valueTracker w0) as Hcall.
  { intros [p|] w0; simpl; [by rewrite run_frame | done]. }
  destruct (own w !! f) as [[e b|d]|].
  - unfold installed_set. destruct (environments w !! e) as [env|]; [|done].
    rewrite final_bind.
    destruct (dev_check_spec v w) as (w1 & -> & Hs & _).
    destruct Hs as (_ & _ & _ & _ & _ & <- & _).
    rewrite final_bind. unfold coerce. destruct (ToString v); simpl; [|done].
    rewrite final_bind. unfold assign_currentValue. cbv beta iota.
    repeat case_match;
      (etransitivity; [first [apply Hcall | apply (Hcall (Some _))] | done]).
  - destruct d as [g s en c|x [] en c]; simpl; try done; apply Hcall.
  - destruct (prototype w !! f) as [[g s en c|x [] en c]|]; simpl; try done;
      apply Hcall.
Qed.

Lemma stopTracking_detached w :
  wf w → tracker_truthy (_valueTracker (final (stopTracking Present w))) = false.
Proof.
  intros Hwf. unfold stopTracking, bind, getTracker.
  destruct (_valueTracker w) as [| |e] eqn:Ht; simpl; try by rewrite Ht.
  destruct (wf_tracker w Hwf e Ht) as (env & b & He & _).
  unfold tracker_stopTracking. rewrite He.
  unfold bind, detachTracker, deleteField.
  by repeat case_match.
Qed.

(** X8. After [stopTracking], the node is reported as changed whatever is
    written to its fields: no tracker is attached, a write of any value to
    any property other than [_valueTracker] attaches none, and
    [updateValueIfChanged] after such a write returns true and changes
    nothing. *)
Theorem X8_stopped_node_always_reported w f v :
  reachable w → f ≠ "_valueTracker" →
  tracker_truthy (_valueTracker (final (stopTracking Present w))) = false ∧
  updateValueIfChanged Present
    (final (setField f v (final (stopTracking Present w))))
  = Normal true (final (setField f v (final (stopTracking Present w)))).
Proof.
  intros Hr _. pose proof (stopTracking_detached w (reachable_wf w Hr)) as Hd.
  split; [done|].
  unfold updateValueIfChanged, bind, getTracker.
  rewrite setField_tracker.
  by destruct (_valueTracker (final (stopTracking Present w))).
Qed.

(** X9. The exported functions never touch the control itself: after
    [track], [updateValueIfChanged] or [stopTracking], whether they return
    or throw, the control's internal state, its class-level descriptors, its
    [nodeName] and its [type] are what they were; [updateValueIfChanged]
    also leaves the own properties and the tracker reference as they
    were. *)
Theorem X9_exported_functions_keep_the_control w :
  (slots (final (track Present w)) = slots w ∧
   prototype (final (track Present w)) = prototype w ∧
   nodeName (final (track Present w)) = nodeName w ∧
   type (final (track Present w)) = type w) ∧
  (slots (final (updateValueIfChanged Present w)) = slots w ∧
   prototype (final (updateValueIfChanged Present w)) = prototype w ∧
   nodeName (final (updateValueIfChanged Present w)) = nodeName w ∧
   type (final (updateValueIfChanged Present w)) = type w ∧
   own (final (updateValueIfChanged Present w)) = own w ∧
   _valueTracker (final (updateValueIfChanged Present w)) = _valueTracker w) ∧
  (slots (final (stopTracking Present w)) = slots w ∧
   prototype (final (stopTracking Present w)) = prototype w ∧
   nodeName (final (stopTracking Present w)) = nodeName w ∧
   type (final (stopTracking Present w)) = type w).
Proof.
  split_and!.
  1-4: destruct (tracker_truthy (_valueTracker w)) eqn:Hf;
    [ unfold track, bind, getTracker; by rewrite Hf
    | destruct (track_cases w Hf)
        as [(w1 & -> & (?&?&?&?&?&?&?)) | [-> | (d & g & st & s & _ & _ & _ & _ & _ & _ & ->)]];
      done ].
  1-6: unfold updateValueIfChanged, bind, getTracker;
    destruct (_valueTracker w) as [| |e] eqn:Ht; try done;
    unfold tracker_getValue;
    destruct (environments w !! e) as [env|] eqn:He; [|done];
    destruct (getValueFromNode_cases w) as [[v ->] | ->]; [|done];
    destruct (strict_neq v (currentValue env)); [|done];
    destruct (tracker_setValue_spec e v w env He)
      as (w1 & (?&?&?&?&?&?&?) & _ & _ & ->);
    destruct (ToString v); simpl; congruence.
  1-4: unfold stopTracking, bind, getTracker;
    destruct (_valueTracker w) as [| |e] eqn:Ht; try done;
    unfold tracker_stopTracking;
    destruct (environments w !! e) as [env|]; [|done];
    unfold bind, detachTracker, deleteField;
    by repeat case_match.
Qed.

(** X10. A value without a string form cannot be written to a tracked
    field nor given to [setValue]: both throw a TypeError before anything
    is recorded or delegated, and the node, its closures and the control's
    internal state are as before. *)
Theorem X10_uncoercible_value_rejected w f e b v :
  reachable w → own w !! f = Some (Installed e b) → ToString v = None →
  (∃ w', setField f v w = Throw TypeError w' ∧ same_node w w') ∧
  (∃ w', tracker_setValue e v w = Throw TypeError w' ∧ same_node w w').
Proof.
  intros Hr Hown Hs. pose proof (reachable_wf w Hr) as Hwf.
  destruct (wf_own w Hwf f e b Hown) as (env & He & _). split.
  - unfold setField. rewrite Hown. unfold installed_set. rewrite He.
    unfold bind at 1.
    destruct (dev_check_spec v w) as (w1 & -> & Hsame & _).
    unfold bind, coerce. rewrite Hs. eauto.
  - destruct (tracker_setValue_spec e v w env He) as (w1 & Hsame & _ & _ & ->).
    rewrite Hs. eauto.
Qed.

(** X11. In every reachable world a tracker reference on the node refers
    to an existing closure: the node owns the accessor of that very tracker
    under the name of the tracked field, and the getter and the setter that
    the closure captured are functions. A tracker is never attached without
    its interceptor. *)
Theorem X11_attached_tracker_has_its_accessor w e :
  reachable w → _valueTracker w = TObject e →
  ∃ env b,
    environments w !! e = Some env ∧
    own w !! valueField env = Some (Installed e b) ∧
    is_Some (captured_get env) ∧ is_Some (captured_set env).
Proof.
  intros Hr Ht. pose proof (reachable_wf w Hr) as Hwf.
  destruct (wf_tracker w Hwf e Ht) as (env & b & He & Ho).
  destruct (wf_envs w Hwf e env He) as (Hg & Hs & _).
  by exists env, b.
Qed.

Lemma keeps_closures_same w w' :
  environments w' = environments w → keeps_closures w w'.
Proof. intros E e env He. exists env. by rewrite E. Qed.

Lemma keeps_closures_trans w1 w2 w3 :
  keeps_closures w1 w2 → keeps_closures w2 w3 → keeps_closures w1 w3.
Proof.
  intros H12 H23 e env He.
  destruct (H12 e env He) as (env2 & He2 & Hf & Hg & Hs).
  destruct (H23 e env2 He2) as (env3 & He3 & Hf' & Hg' & Hs').
  exists env3. split_and!; [done|congruence..].
Qed.

Lemma keeps_closures_recorded e s w : keeps_closures w (recorded e s w).
Proof.
  intros e' env He.
  destruct (alter_currentValue_fwd (VString s) e _ _ _ He)
    as (env' & ? & ? & ? & ? & _).
  by exists env'.
Qed.

Lemma keeps_closures_call_setter s v w :
  keeps_closures w (final (call_setter s v w)).
Proof.
  apply keeps_closures_same. destruct s; simpl; [by rewrite run_frame | done].
Qed.

Lemma keeps_closures_setField f v w :
  keeps_closures w (final (setField f v w)).
Proof.
  unfold setField, define_own_data.
  destruct (own w !! f) as [[e b|d]|].
  - unfold installed_set.
    destruct (environments w !! e) as [env|]; [|by apply keeps_closures_same].
    rewrite final_bind.
    destruct (dev_check_spec v w) as (w1 & -> & Hs & _).
    destruct Hs as (_ & _ & _ & _ & _ & _ & Henv).
    apply (keeps_closures_trans _ w1); [by apply keeps_closures_same|].
    rewrite final_bind. unfold coerce.
    destruct (ToString v) as [s|]; simpl; [|by apply keeps_closures_same].
    rewrite final_bind. unfold assign_currentValue. cbv beta iota.
    apply (keeps_closures_trans _ (recorded e s w1));
      [apply keeps_closures_recorded|].
    unfold recorded.
    repeat case_match;
      first [apply keeps_closures_call_setter
            | apply (keeps_closures_call_setter (Some _))].
  - destruct d as [g s en c|x [] en c]; simpl;
      first [apply keeps_closures_call_setter | by apply keeps_closures_same].
  - destruct (prototype w !! f) as [[g s en c|x [] en c]|]; simpl;
      first [apply keeps_closures_call_setter | by apply keeps_closures_same].
Qed.

Lemma keeps_closures_tracker_setValue e v w :
  keeps_closures w (final (tracker_setValue e v w)).
Proof.
  destruct (environments w !! e) as [env|] eqn:He.
  - destruct (tracker_setValue_spec e v w env He) as (w1 & Hs & _ & _ & ->).
    destruct Hs as (_ & _ & _ & _ & _ & _ & Henv).
    apply (keeps_closures_trans _ w1); [by apply keeps_closures_same|].
    destruct (ToString v); simpl;
      [apply keeps_closures_recorded | by apply keeps_closures_same].
  - unfold tracker_setValue. rewrite He. by apply keeps_closures_same.
Qed.

Lemma keeps_closures_tracker_stopTracking e w :
  keeps_closures w (final (tracker_stopTracking e w)).
Proof.
  apply keeps_closures_same. unfold tracker_stopTracking.
  destruct (environments w !! e) as [env|]; [|done].
  unfold bind, detachTracker, deleteField. by repeat case_match.
Qed.

Lemma keeps_closures_perform ev w : keeps_closures w (perform ev w).
Proof.
  destruct ev; unfold perform.
  - destruct (tracker_truthy (_valueTracker w)) eqn:Hf.
    { apply keeps_closures_same. unfold track, bind, getTracker.
      by rewrite Hf. }
    destruct (track_cases w Hf)
      as [(w1 & -> & (_&_&_&_&_&_&?)) | [-> | (d & g & st & s & _ & _ & _ & _ & _ & _ & ->)]].
    + by apply keeps_closures_same.
    + by apply keeps_closures_same.
    + intros e env He. exists env. split_and!; [|done..].
      simpl. by apply lookup_app_l_Some.
  - unfold updateValueIfChanged, bind, getTracker.
    destruct (_valueTracker w) as [| |e]; try by apply keeps_closures_same.
    unfold tracker_getValue.
    destruct (environments w !! e) as [env|] eqn:He;
      [|by apply keeps_closures_same].
    destruct (getValueFromNode_cases w) as [[v ->] | ->];
      [|by apply keeps_closures_same].
    destruct (strict_neq v (currentValue env));
      [|by apply keeps_closures_same].
    pose proof (keeps_closures_tracker_setValue e v w) as H.
    by destruct (tracker_setValue e v w).
  - unfold stopTracking, bind, getTracker.
    destruct (_valueTracker w) as [| |e]; try by apply keeps_closures_same.
    apply keeps_closures_tracker_stopTracking.
  - rewrite getField_final. by apply keeps_closures_same.
  - apply keeps_closures_setField.
  - by apply keeps_closures_same.
  - apply keeps_closures_tracker_setValue.
  - apply keeps_closures_tracker_stopTracking.
  - by apply keeps_closures_same.
  - by apply keeps_closures_same.
Qed.

(** X12. A closure, once created, stays for good, and what it captured at
    installation never changes: after any sequence of calls of the exported
    functions, field reads and writes, host changes, uses of trackers,
    redefinitions of the class and changes of type, the tracker still
    follows the field it was installed for and still holds the getter and
    the setter it captured then. Only its recorded value changes. *)
Theorem X12_captured_parts_never_change evs w e env :
  environments w !! e = Some env →
  ∃ env', environments (foldl (λ w ev, perform ev w) w evs) !! e = Some env' ∧
          valueField env' = valueField env ∧
          captured_get env' = captured_get env ∧
          captured_set env' = captured_set env.
Proof.
  revert w env. induction evs as [|ev evs IH]; intros w env He; simpl.
  - by exists env.
  - destruct (keeps_closures_perform ev w e env He) as (env1 & He1 & Hf & Hg & Hs).
    destruct (IH _ _ He1) as (env' & He' & Hf' & Hg' & Hs').
    exists env'. split_and!; [done|congruence..].
Qed.

End InputValueTracking.

(** ** The theorems at concrete nodes *)

Lemma input_untouched ty val chk : untouched (input ty val chk).
Proof.
  split_and!; [done..|]. intros f e b. simpl. by rewrite lookup_empty.
Qed.

Lemma tracked_input_reachable dev ty val chk :
  reachable dev (perform dev CallTrack (input ty val chk)).
Proof. apply reachable_perform, reachable_untouched, input_untouched. Qed.

(** A text input whose class-level setter reads the tracker while it runs:
    it sees the value being written. *)
Example nested_read_sees_the_write :
  slots (perform true (WriteField "value" (VString "b"))
           (perform true CallTrack
              (with_prototype
                 (<["value" := AccessorDescriptor (Some (slot_getter "value"))
                                 (Some (observing_setter "value")) true true]> ∅)
                 (input "text" "a" false)))) !! "seen"
  = Some (VString "b").
Proof. reflexivity. Qed.

(** The class redefines its [value] accessor after the tracker was
    installed: a read goes to the new getter. The class loses the accessor:
    a read goes to the captured getter. *)
Example read_follows_the_redefined_class :
  getField "value"
    (perform true
       (RedefineClass
          (<["value" := AccessorDescriptor (Some (λ _, VString "z")) None
                          true true]> ∅))
       (perform true CallTrack (input "text" "a" false)))
  = Normal (VString "z")
      (perform true
         (RedefineClass
            (<["value" := AccessorDescriptor (Some (λ _, VString "z")) None
                            true true]> ∅))
         (perform true CallTrack (input "text" "a" false))).
Proof. reflexivity. Qed.

Example read_falls_back_to_the_captured_getter :
  getField "value"
    (perform true (RedefineClass ∅)
       (perform true CallTrack (input "text" "a" false)))
  = Normal (VString "a")
      (perform true (RedefineClass ∅)
         (perform true CallTrack (input "text" "a" false))).
Proof. reflexivity. Qed.

(** A checkbox starts unchecked and is tracked; the host checks it; the
    change is reported once and the tracker then holds ["true"]. *)
Example checkbox_checked_by_the_host :
  let w := perform false (HostChange (<["checked" := VBool true]> ∅))
             (perform false CallTrack (input "checkbox" "on" false)) in
  updateValueIfChanged false Present w = Normal true (recorded 0 "true" w) ∧
  updateValueIfChanged false Present (recorded 0 "true" w)
  = Normal false (recorded 0 "true" w).
Proof. split; reflexivity. Qed.

(** A text input reads ["a"] and is tracked; a script assigns ["a"] again;
    nothing is reported. *)
Example same_value_assigned_again :
  let w := perform false (WriteField "value" (VString "a"))
             (perform false CallTrack (input "text" "a" false)) in
  updateValueIfChanged false Present w = Normal false w.
Proof. reflexivity. Qed.

(** A node that already owns a [value] property gets no tracker, and
    [updateValueIfChanged] keeps returning true. *)
Example spied_input_always_reported :
  let w := perform false CallTrack spied_input in
  _valueTracker w = TUndefined ∧ own w = own spied_input ∧
  updateValueIfChanged false Present w = Normal true w ∧
  updateValueIfChanged false Present (perform false CallUpdateValueIfChanged w)
  = Normal true w.
Proof. repeat split; reflexivity. Qed.

(** After [stopTracking], a write goes to the class-level setter only, and
    no tracker is left to compare with. *)
Example stopped_then_written :
  let w := perform true (WriteField "value" (VString "b"))
             (perform true CallStopTracking
                (perform true CallTrack (input "text" "a" false))) in
  slots w !! "value" = Some (VString "b") ∧
  currentValue <$> environments w = [VString "a"] ∧
  updateValueIfChanged true Present w = Normal true w.
Proof. repeat split; reflexivity. Qed.

(** A symbol cannot be coerced: the write throws before anything is
    recorded or delegated, and a diagnostic build reports the value. *)
Example symbol_written_to_a_tracked_field :
  let w := perform true CallTrack (input "text" "a" false) in
  setField true "value" (VSymbol 0) w
  = Throw TypeError (with_console [VSymbol 0] w) ∧
  setField false "value" (VSymbol 0) (perform false CallTrack (input "text" "a" false))
  = Throw TypeError (perform false CallTrack (input "text" "a" false)).
Proof. split; reflexivity. Qed.

Lemma C1_witness :
  reachable true (perform true CallTrack (input "text" "a" false)) ∧
  own (perform true CallTrack (input "text" "a" false)) !! "value"
  = Some (Installed 0 true) ∧
  getField "value" (perform true CallTrack (input "text" "a" false))
  = Normal (VString "a") (perform true CallTrack (input "text" "a" false)).
Proof.
  split; [apply tracked_input_reachable|]. split; [reflexivity|].
  destruct (C1_read_delegates_to_live_getter true
              (perform true CallTrack (input "text" "a" false)) "value" 0 true)
    as (env & _ & _ & Hlive & _).
  - apply tracked_input_reachable.
  - reflexivity.
  - apply (Hlive (slot_getter "value")). reflexivity.
Defined.

Lemma C2_witness :
  reachable true (perform true CallTrack (input "text" "a" false)) ∧
  own (perform true CallTrack (input "text" "a" false)) !! "value"
  = Some (Installed 0 true) ∧
  ToString (VBool true) = Some "true" ∧
  ∃ env p,
    environments (perform true CallTrack (input "text" "a" false)) !! 0
    = Some env ∧
    (live_setter (perform true CallTrack (input "text" "a" false)) "value"
     = Some p ∨
     (live_setter (perform true CallTrack (input "text" "a" false)) "value"
      = None ∧ captured_set env = Some p)) ∧
    tracker_getValue 0
      (recorded 0 "true" (perform true CallTrack (input "text" "a" false)))
    = Normal (VString "true")
        (recorded 0 "true" (perform true CallTrack (input "text" "a" false))) ∧
    setField true "value" (VBool true)
      (perform true CallTrack (input "text" "a" false))
    = Normal tt
        (run (p (VBool true))
           (recorded 0 "true" (perform true CallTrack (input "text" "a" false)))) ∧
    (_valueTracker (perform true CallTrack (input "text" "a" false)) = TObject 0 →
     Forall (λ x, x = VString "true")
       (tracker_reads (p (VBool true))
          (recorded 0 "true" (perform true CallTrack (input "text" "a" false))))).
Proof.
  split; [apply tracked_input_reachable|]. split; [reflexivity|].
  split; [reflexivity|].
  apply (C2_write_records_before_delegating true
           (perform true CallTrack (input "text" "a" false)) "value" 0 true
           (VBool true) "true").
  - apply tracked_input_reachable.
  - reflexivity.
  - reflexivity.
Defined.

Lemma C3_witness :
  reachable false
    (perform false (HostChange (<["value" := VString "typed"]> ∅))
       (perform false CallTrack (input "text" "a" false))) ∧
  updateValueIfChanged false Present
    (perform false (HostChange (<["value" := VString "typed"]> ∅))
       (perform false CallTrack (input "text" "a" false)))
  = Normal true
      (recorded 0 "typed"
         (perform false (HostChange (<["value" := VString "typed"]> ∅))
            (perform false CallTrack (input "text" "a" false)))).
Proof.
  assert (reachable false
            (perform false (HostChange (<["value" := VString "typed"]> ∅))
               (perform false CallTrack (input "text" "a" false)))) as Hr.
  { apply reachable_perform, tracked_input_reachable. }
  split; [exact Hr|].
  destruct (C3_updateValueIfChanged_cases false
              (perform false (HostChange (<["value" := VString "typed"]> ∅))
                 (perform false CallTrack (input "text" "a" false))))
    as (_ & _ & Htracked).
  destruct (Htracked 0 Hr eq_refl)
    as (lastValue & nextValue & Hlast & Hnext & _ & Hdiffer).
  injection Hlast as <-. injection Hnext as <-.
  apply Hdiffer; [discriminate | reflexivity].
Defined.

Lemma C4_witness :
  reachable true (perform true CallTrack (input "text" "a" false)) ∧
  updateValueIfChanged true Present
    (with_slots (<["value" := VString "c"]> ∅)
       (perform true CallTrack (input "text" "a" false)))
  = Normal true
      (recorded 0 "c"
         (with_slots (<["value" := VString "c"]> ∅)
            (perform true CallTrack (input "text" "a" false)))) ∧
  updateValueIfChanged true Present
    (recorded 0 "c"
       (with_slots (<["value" := VString "c"]> ∅)
          (perform true CallTrack (input "text" "a" false))))
  = Normal false
      (recorded 0 "c"
         (with_slots (<["value" := VString "c"]> ∅)
            (perform true CallTrack (input "text" "a" false)))).
Proof.
  split; [apply tracked_input_reachable|].
  destruct (C4_host_change_reported_once true
              (perform true CallTrack (input "text" "a" false)) 0
              (<["value" := VString "c"]> ∅) "a" "c")
    as (H1 & _ & H2).
  - apply tracked_input_reachable.
  - reflexivity.
  - reflexivity.
  - reflexivity.
  - reflexivity.
  - discriminate.
  - split; [exact H1 | exact H2].
Defined.

(** C4, as stated, fails for a write made through the node: the installed
    setter records the write, so the first [updateValueIfChanged] already
    returns false. The node is a text input that reads ["a"], tracked, to
    which a script assigns ["b"]. *)
Lemma C4_write_through_node_is_not_reported :
  ¬ write_reported_once true ∧ ¬ write_reported_once false.
Proof.
  split; intros H.
  - destruct (H (perform true CallTrack (input "text" "a" false)) "value" 0 true
                (VString "b")
                (perform true (WriteField "value" (VString "b"))
                   (perform true CallTrack (input "text" "a" false)))
                "a" "b") as (w2 & Hfirst & _);
      [apply tracked_input_reachable | reflexivity.. | discriminate |].
    discriminate Hfirst.
  - destruct (H (perform false CallTrack (input "text" "a" false)) "value" 0 true
                (VString "b")
                (perform false (WriteField "value" (VString "b"))
                   (perform false CallTrack (input "text" "a" false)))
                "a" "b") as (w2 & Hfirst & _);
      [apply tracked_input_reachable | reflexivity.. | discriminate |].
    discriminate Hfirst.
Qed.

Lemma C5_witness :
  bails spied_input (if isCheckable spied_input then "checked" else "value") ∧
  trackValueOnNode true spied_input = Normal None spied_input.
Proof.
  assert (bails spied_input (if isCheckable spied_input then "checked" else "value"))
    as Hb.
  { left. exists (Foreign (DataDescriptor (VString "spy") true true true)).
    reflexivity. }
  split; [exact Hb|].
  destruct (C5_bail_returns_nothing_changes_nothing true spied_input Hb)
    as (_ & _ & Hnone).
  apply (Hnone (VString "spy")); [reflexivity | by exists "spy"].
Defined.

Lemma C6_witness :
  reachable true (perform true CallTrack (input "checkbox" "on" true)) ∧
  getValueFromNode Present (perform true CallTrack (input "checkbox" "on" true))
  = Normal (VString "true") (perform true CallTrack (input "checkbox" "on" true)).
Proof.
  split; [apply tracked_input_reachable|].
  destruct (C6_getValueFromNode_value true
              (perform true CallTrack (input "checkbox" "on" true)))
    as (_ & _ & Hpresent).
  specialize (Hpresent (tracked_input_reachable true "checkbox" "on" true)).
  change (isCheckable (perform true CallTrack (input "checkbox" "on" true)))
    with true in Hpresent.
  destruct Hpresent as (checked & Hchecked & Hvalue).
  injection Hchecked as <-. exact Hvalue.
Defined.

Lemma C7_witness :
  host_typed (input "checkbox" "on" true) ∧
  tracker_truthy (_valueTracker (input "checkbox" "on" true)) = false ∧
  track true Present (input "checkbox" "on" true)
  = Normal tt (perform true CallTrack (input "checkbox" "on" true)) ∧
  _valueTracker (perform true CallTrack (input "checkbox" "on" true)) = TObject 0 ∧
  updateValueIfChanged true Present
    (perform true CallTrack (input "checkbox" "on" true))
  = Normal false (perform true CallTrack (input "checkbox" "on" true)).
Proof.
  assert (host_typed (input "checkbox" "on" true)) as Hty.
  { exists (VBool true). split; reflexivity. }
  split; [exact Hty|]. split; [reflexivity|]. split; [reflexivity|].
  split; [reflexivity|].
  apply (C7_track_then_update_returns_false true
           (input "checkbox" "on" true) _ 0 Hty); reflexivity.
Defined.

Lemma C8_witness :
  _valueTracker (perform false CallTrack (input "text" "a" false)) = TObject 0 ∧
  track false Present (perform false CallTrack (input "text" "a" false))
  = Normal tt (perform false CallTrack (input "text" "a" false)).
Proof.
  split; [reflexivity|].
  apply (C8_track_idempotent false
           (perform false CallTrack (input "text" "a" false)) 0).
  reflexivity.
Defined.

Lemma C9_witness :
  reachable true (perform true CallTrack (input "text" "a" false)) ∧
  _valueTracker (perform true CallTrack (input "text" "a" false)) = TObject 0 ∧
  ∃ w', stopTracking Present (perform true CallTrack (input "text" "a" false))
        = Normal tt w' ∧
        _valueTracker w' = TNull ∧ own w' !! "value" = None.
Proof.
  split; [apply tracked_input_reachable|]. split; [reflexivity|].
  destruct (C9_stopTracking_detaches true
              (perform true CallTrack (input "text" "a" false)))
    as (Htracked & _).
  destruct (Htracked 0 (tracked_input_reachable true "text" "a" false) eq_refl)
    as (env & b & Henv & _ & Hstop).
  injection Henv as <-. simpl in Hstop.
  destruct Hstop as (Hstop & Hnull & Hown & _).
  eexists. split; [exact Hstop|]. split; [exact Hnull | exact Hown].
Defined.

Lemma C10_witness :
  reachable true (perform true CallTrack (input "text" "a" false)) ∧
  is_Some (environments (perform true CallTrack (input "text" "a" false)) !! 0) ∧
  ∃ s, tracker_getValue 0
         (final (tracker_setValue true 0 (VBool false)
                   (perform true CallTrack (input "text" "a" false))))
       = Normal (VString s)
           (final (tracker_setValue true 0 (VBool false)
                     (perform true CallTrack (input "text" "a" false)))).
Proof.
  split; [apply tracked_input_reachable|].
  assert (is_Some (environments (perform true CallTrack (input "text" "a" false)) !! 0))
    as Hsome by (eexists; reflexivity).
  split; [exact Hsome|].
  destruct (C10_currentValue_is_a_string true
              (perform true CallTrack (input "text" "a" false))
              (tracked_input_reachable true "text" "a" false))
    as (_ & Hheld).
  destruct (Hheld 0 Hsome) as (_ & HsetValue & _).
  apply (HsetValue (VBool false)).
Defined.

(** ** The further properties at concrete nodes *)

Lemma X1_witness :
  ¬ bails (input "text" "a" false)
      (if isCheckable (input "text" "a" false) then "checked" else "value") ∧
  getField (if isCheckable (input "text" "a" false) then "checked" else "value")
    (input "text" "a" false)
  = Normal (VString "a") (input "text" "a" false) ∧
  ToString (VString "a") = Some "a" ∧
  ∃ w', trackValueOnNode true (input "text" "a" false) = Normal (Some 0) w' ∧
        tracker_getValue 0 w' = Normal (VString "a") w' ∧
        own w' = <["value" := Installed 0 true]> ∅.
Proof.
  assert (¬ bails (input "text" "a" false)
            (if isCheckable (input "text" "a" false) then "checked" else "value"))
    as Hnb.
  { intros [[o H] | [H | [H | H]]]; vm_compute in H; discriminate H. }
  split; [exact Hnb|]. split; [reflexivity|]. split; [reflexivity|].
  destruct (X1_trackValueOnNode_installs true (input "text" "a" false)
              (VString "a") "a" Hnb eq_refl eq_refl)
    as (d & w' & Hd & Htrack & _ & Hvalue & Hown & _).
  injection Hd as <-.
  exists w'. split; [exact Htrack|]. split; [exact Hvalue | exact Hown].
Defined.

Lemma X2_witness :
  tracker_truthy (_valueTracker spied_input) = false ∧
  bails spied_input (if isCheckable spied_input then "checked" else "value") ∧
  getField (if isCheckable spied_input then "checked" else "value") spied_input
  = Normal (VString "spy") spied_input ∧
  is_Some (ToString (VString "spy")) ∧
  updateValueIfChanged false Present (with_tracker TUndefined spied_input)
  = Normal true (with_tracker TUndefined spied_input).
Proof.
  assert (bails spied_input (if isCheckable spied_input then "checked" else "value"))
    as Hb.
  { left. exists (Foreign (DataDescriptor (VString "spy") true true true)).
    reflexivity. }
  assert (is_Some (ToString (VString "spy"))) as Hs by (by exists "spy").
  split; [reflexivity|]. split; [exact Hb|]. split; [reflexivity|].
  split; [exact Hs|].
  apply (X2_track_bail_reports_always false spied_input (VString "spy")
           eq_refl Hb eq_refl Hs).
Defined.

Lemma X3_witness :
  tracker_truthy (_valueTracker (input "text" "a" false)) = false ∧
  track true Present (input "text" "a" false)
  = Normal tt (perform true CallTrack (input "text" "a" false)) ∧
  _valueTracker (perform true CallTrack (input "text" "a" false)) = TObject 0 ∧
  ∃ w'', stopTracking Present (perform true CallTrack (input "text" "a" false))
         = Normal tt w'' ∧
         _valueTracker w'' = TNull ∧
         own w'' !! "value" = own (input "text" "a" false) !! "value".
Proof.
  split; [reflexivity|]. split; [reflexivity|]. split; [reflexivity|].
  destruct (X3_track_stopTracking_restores true (input "text" "a" false)
              (perform true CallTrack (input "text" "a" false)) 0
              eq_refl eq_refl eq_refl)
    as (w'' & Hstop & Hnull & Hown & _).
  exists w''. split; [exact Hstop|]. split; [exact Hnull|].
  apply Hown. discriminate.
Defined.

Lemma X4_witness :
  track false Present (input "checkbox" "on" true)
  = Normal tt (perform false CallTrack (input "checkbox" "on" true)) ∧
  getValueFromNode Present (perform false CallTrack (input "checkbox" "on" true))
  = Normal (VString "true") (perform false CallTrack (input "checkbox" "on" true)).
Proof.
  split; [reflexivity|].
  apply (X4_track_keeps_reads false (input "checkbox" "on" true)
           (perform false CallTrack (input "checkbox" "on" true)) eq_refl).
  reflexivity.
Defined.

Lemma X5_witness :
  reachable true (perform true CallTrack (input "text" "a" false)) ∧
  setField true "value" (VString "b")
    (perform true CallTrack (input "text" "a" false))
  = Normal tt
      (perform true (WriteField "value" (VString "b"))
         (perform true CallTrack (input "text" "a" false))) ∧
  updateValueIfChanged true Present
    (perform true (WriteField "value" (VString "b"))
       (perform true CallTrack (input "text" "a" false)))
  = Normal false
      (perform true (WriteField "value" (VString "b"))
         (perform true CallTrack (input "text" "a" false))).
Proof.
  split; [apply tracked_input_reachable|]. split; [reflexivity|].
  apply (X5_write_through_node_not_reported true
           (perform true CallTrack (input "text" "a" false)) "value" 0 true
           (VString "b") "b");
    [apply tracked_input_reachable | reflexivity..].
Defined.

Lemma X6_witness :
  reachable false
    (perform false (HostChange (<["value" := VString "c"]> ∅))
       (perform false CallTrack (input "text" "a" false))) ∧
  ∃ b w', updateValueIfChanged false Present
            (perform false (HostChange (<["value" := VString "c"]> ∅))
               (perform false CallTrack (input "text" "a" false)))
          = Normal b w' ∧
          tracker_getValue 0 w' = Normal (VString "c") w' ∧
          updateValueIfChanged false Present w' = Normal false w'.
Proof.
  assert (reachable false
            (perform false (HostChange (<["value" := VString "c"]> ∅))
               (perform false CallTrack (input "text" "a" false)))) as Hr.
  { apply reachable_perform, tracked_input_reachable. }
  split; [exact Hr|].
  apply (X6_updateValueIfChanged_resynchronises false _ 0 "c" Hr);
    reflexivity.
Defined.

Lemma X7_witness :
  reachable true
    (perform true CallTrack
       (with_prototype
          (<["value" := AccessorDescriptor (Some (λ _, VNull))
                          (Some (slot_setter "value")) true true]> ∅)
          (input "text" "a" false))) ∧
  ∀ w', updateValueIfChanged true Present
          (perform true CallTrack
             (with_prototype
                (<["value" := AccessorDescriptor (Some (λ _, VNull))
                                (Some (slot_setter "value")) true true]> ∅)
                (input "text" "a" false)))
        ≠ Normal false w'.
Proof.
  assert (reachable true
            (perform true CallTrack
               (with_prototype
                  (<["value" := AccessorDescriptor (Some (λ _, VNull))
                                  (Some (slot_setter "value")) true true]> ∅)
                  (input "text" "a" false)))) as Hr.
  { apply reachable_perform, reachable_untouched.
    split; [reflexivity|]. split; [reflexivity|].
    intros f e b. simpl. rewrite lookup_empty. discriminate. }
  split; [exact Hr|].
  apply (X7_non_string_read_always_reported true _ 0 VNull Hr);
    reflexivity.
Defined.

Lemma X8_witness :
  reachable true (perform true CallTrack (input "text" "a" false)) ∧
  "value" ≠ "_valueTracker" ∧
  updateValueIfChanged true Present
    (final (setField true "value" (VString "b")
              (final (stopTracking Present
                        (perform true CallTrack (input "text" "a" false))))))
  = Normal true
      (final (setField true "value" (VString "b")
                (final (stopTracking Present
                          (perform true CallTrack (input "text" "a" false)))))).
Proof.
  split; [apply tracked_input_reachable|]. split; [discriminate|].
  apply (X8_stopped_node_always_reported true
           (perform true CallTrack (input "text" "a" false)) "value"
           (VString "b")).
  - apply tracked_input_reachable.
  - discriminate.
Defined.

Lemma X10_witness :
  reachable false (perform false CallTrack (input "text" "a" false)) ∧
  own (perform false CallTrack (input "text" "a" false)) !! "value"
  = Some (Installed 0 true) ∧
  ToString (VSymbol 7) = None ∧
  ∃ w', setField false "value" (VSymbol 7)
          (perform false CallTrack (input "text" "a" false))
        = Throw TypeError w' ∧
        same_node (perform false CallTrack (input "text" "a" false)) w'.
Proof.
  split; [apply tracked_input_reachable|]. split; [reflexivity|].
  split; [reflexivity|].
  apply (X10_uncoercible_value_rejected false
           (perform false CallTrack (input "text" "a" false)) "value" 0 true
           (VSymbol 7));
    [apply tracked_input_reachable | reflexivity..].
Defined.

Lemma X11_witness :
  reachable true (perform true CallTrack (input "radio" "r" false)) ∧
  _valueTracker (perform true CallTrack (input "radio" "r" false)) = TObject 0 ∧
  ∃ env b,
    environments (perform true CallTrack (input "radio" "r" false)) !! 0
    = Some env ∧
    own (perform true CallTrack (input "radio" "r" false)) !! valueField env
    = Some (Installed 0 b) ∧
    is_Some (captured_get env) ∧ is_Some (captured_set env).
Proof.
  split; [apply tracked_input_reachable|]. split; [reflexivity|].
  apply (X11_attached_tracker_has_its_accessor true
           (perform true CallTrack (input "radio" "r" false)) 0);
    [apply tracked_input_reachable | reflexivity].
Defined.

Lemma X12_witness :
  environments (perform true CallTrack (input "text" "a" false)) !! 0
  = Some {| valueField := "value";
            captured_get := Some (slot_getter "value");
            captured_set := Some (slot_setter "value");
            currentValue := VString "a" |} ∧
  ∃ env',
    environments
      (foldl (λ w ev, perform true ev w)
         (perform true CallTrack (input "text" "a" false))
         [RedefineClass ∅; WriteField "value" (VString "b");
          ChangeType "checkbox"; CallUpdateValueIfChanged]) !! 0
    = Some env' ∧
    valueField env' = "value" ∧
    captured_get env' = Some (slot_getter "value") ∧
    captured_set env' = Some (slot_setter "value").
Proof.
  split; [reflexivity|].
  apply (X12_captured_parts_never_change true
           [RedefineClass ∅; WriteField "value" (VString "b");
            ChangeType "checkbox"; CallUpdateValueIfChanged]
           (perform true CallTrack (input "text" "a" false)) 0
           {| valueField := "value";
              captured_get := Some (slot_getter "value");
              captured_set := Some (slot_setter "value");
              currentValue := VString "a" |}).
  reflexivity.
Defined.
